(** * gunzip.c: a shallow embedding of the DEFLATE/gzip decoder sketch

    The development follows [cab/gunzip.c] function by function.  C [int]
    values are integers of [Z]; [size_t] and [uint32_t] arithmetic is written
    with its wrap-around; memory objects are lists indexed from the pointer,
    and an access outside the object is the outcome [Undef].  [fatal()]
    (message on stderr, [exit(1)]) is the outcome [Fatal]. *)

From Stdlib Require Import String ZArith List Lia Bool.
From Stdlib Require Import Strings.Byte.
Import ListNotations.
Local Open Scope Z_scope.

(** ** Outcomes of a run *)

Inductive outcome (A : Type) : Type :=
| Ret (a : A)              (* the call returns *)
| Fatal (msg : string)     (* fatal(msg): the process exits with status 1 *)
| Undef                    (* an access outside a memory object *)
| OutOfFuel.               (* the loop bound of the model was reached *)

Arguments Ret {A} a.
Arguments Fatal {A} msg.
Arguments Undef {A}.
Arguments OutOfFuel {A}.

Definition bind {A B : Type} (m : outcome A) (k : A -> outcome B) : outcome B :=
  match m with
  | Ret a => k a
  | Fatal msg => Fatal msg
  | Undef => Undef
  | OutOfFuel => OutOfFuel
  end.

Notation "x <- m ;; k" := (bind m (fun x => k))
  (at level 61, m at next level, right associativity).
Notation "' pat <- m ;; k" := (bind m (fun x => match x with pat => k end))
  (at level 61, pat pattern, m at next level, right associativity).

(** ** Memory objects *)

Definition byte_val (b : byte) : Z := Z.of_N (Byte.to_N b).

Definition in_range {A : Type} (m : list A) (i : Z) : bool :=
  (0 <=? i) && (i <? Z.of_nat (length m)).

(** [d[i]] for a [uint8_t* d]. *)
Definition load8 (m : list byte) (i : Z) : outcome Z :=
  if in_range m i then Ret (byte_val (nth (Z.to_nat i) m x00)) else Undef.

(** [a[i]] and [a[i] = v] for an [int* a]. *)
Definition load (m : list Z) (i : Z) : outcome Z :=
  if in_range m i then Ret (nth (Z.to_nat i) m 0) else Undef.

Fixpoint upd (m : list Z) (n : nat) (v : Z) : list Z :=
  match m, n with
  | [], _ => []
  | _ :: t, O => v :: t
  | h :: t, S n' => h :: upd t n' v
  end.

Definition store (m : list Z) (i : Z) (v : Z) : outcome (list Z) :=
  if in_range m i then Ret (upd m (Z.to_nat i) v) else Undef.

(** ** Integer types *)

Definition size_t (z : Z) : Z := z mod 2 ^ 64.
Definition uint32_t (z : Z) : Z := z mod 2 ^ 32.
Definition uint16_t (z : Z) : Z := z mod 2 ^ 16.

(** [little_uint16t(d + p)] *)
Definition little_uint16t (d : list byte) (p : Z) : outcome Z :=
  d1 <- load8 d (p + 1) ;;
  d0 <- load8 d p ;;
  Ret (uint16_t (Z.lor (Z.shiftl d1 8) d0)).

(** [little_uint32t(d + p)]; the [int] expression is converted to
    [uint32_t] on return. *)
Definition little_uint32t (d : list byte) (p : Z) : outcome Z :=
  d3 <- load8 d (p + 3) ;;
  d2 <- load8 d (p + 2) ;;
  d1 <- load8 d (p + 1) ;;
  d0 <- load8 d p ;;
  Ret (uint32_t
         (Z.lor (Z.lor (Z.lor (Z.shiftl d3 24) (Z.shiftl d2 16)) (Z.shiftl d1 8)) d0)).

(** ** The bit stream (rfc1951) *)

Record Bitstream : Type := mkBitstream {
  curbit : Z;
  curword : Z;
  curword_val : Z;
  source : list byte;
  source_len : Z
}.

Definition bitstream_init (src : list byte) (len : Z) : outcome Bitstream :=
  v <- little_uint16t src 0 ;;
  Ret (mkBitstream 0 0 v src len).

Definition getbit (bs : Bitstream) : outcome (Z * Bitstream) :=
  let bit := Z.land (Z.shiftr (curword_val bs) (curbit bs)) 1 in
  let cb := curbit bs + 1 in
  if 15 <? cb then
    let cw := size_t (curword bs + 2) in
    if cw <? source_len bs then
      v <- little_uint16t (source bs) cw ;;
      Ret (bit, mkBitstream 0 cw v (source bs) (source_len bs))
    else
      Ret (bit, mkBitstream 0 cw (curword_val bs) (source bs) (source_len bs))
  else
    Ret (bit, mkBitstream cb (curword bs) (curword_val bs) (source bs) (source_len bs)).

(** The [for] loop of [getbits]: [k] iterations remain, [i] is the loop
    variable.  The accumulator [bits] is a C [int]: up to [n = 31] every
    value it takes lies in [0, 2^31) and the loop below is the loop of the
    source; a bit shifted left by 31 or more leaves [int].  Every statement
    about [getbits] is therefore made for [n <= 31] or for a call of the
    program, which asks for at most 13 bits at a time. *)
Fixpoint getbits_loop (k : nat) (i : Z) (bits : Z) (bs : Bitstream)
  : outcome (Z * Bitstream) :=
  match k with
  | O => Ret (bits, bs)
  | S k' =>
      '(b, bs1) <- getbit bs ;;
      getbits_loop k' (i + 1) (Z.lor bits (Z.shiftl b i)) bs1
  end.

Definition getbits (bs : Bitstream) (n : Z) : outcome (Z * Bitstream) :=
  getbits_loop (Z.to_nat n) 0 0 bs.

(** ** Huffman trees

    [struct HuffTree] has no members, and the two routines are placeholders
    in the source ([// XXX]). *)

Record HuffTree : Type := mkHuffTree { }.

Definition init_hufftree (nodelengths : list Z) (nodecount : Z) : outcome HuffTree :=
  Ret mkHuffTree.

Definition readsym (ht : HuffTree) (bs : Bitstream) : outcome (Z * Bitstream) :=
  Ret (0, bs).

(** ** Array loops *)

(** [for (...; k iterations; ++j) a[j] = v;] *)
Fixpoint fill_val (k : nat) (j : Z) (v : Z) (a : list Z) : outcome (list Z) :=
  match k with
  | O => Ret a
  | S k' => a1 <- store a j v ;; fill_val k' (j + 1) v a1
  end.

(** [for (int j = i; j < i+n; ++j) lengths[j] = lengths[i - 1];] *)
Fixpoint fill_prev (k : nat) (j : Z) (i : Z) (lengths : list Z) : outcome (list Z) :=
  match k with
  | O => Ret lengths
  | S k' =>
      v <- load lengths (i - 1) ;;
      l1 <- store lengths j v ;;
      fill_prev k' (j + 1) i l1
  end.

(** ** The length and distance tables of [main]

    The loops of lines 164-187; every index they write lies inside the 29-
    and 30-entry arrays. *)

(** [for (int i = 0; i < k; ++i) a[i + shift] = i/d;] *)
Fixpoint fill_extra (k : nat) (i : Z) (shift d : Z) (a : list Z) : list Z :=
  match k with
  | O => a
  | S k' => fill_extra k' (i + 1) shift d (upd a (Z.to_nat (i + shift)) (Z.quot i d))
  end.

(** [for (int i = 0; i < k; ++i) { a[i] = base; base += 1 << extra[i]; }] *)
Fixpoint fill_base (k : nat) (i : Z) (base : Z) (extra : list Z) (a : list Z) : list Z :=
  match k with
  | O => a
  | S k' =>
      fill_base k' (i + 1) (base + Z.shiftl 1 (nth (Z.to_nat i) extra 0)) extra
                (upd a (Z.to_nat i) base)
  end.

Definition extra_len_bits : list Z :=
  upd (fill_extra (6 * 4) 0 4 4 (repeat 0 (7 * 4 + 1))) (7 * 4) 0.

Definition base_lengths : list Z :=
  upd (fill_base (7 * 4 + 1) 0 3 extra_len_bits (repeat 0 (7 * 4 + 1))) (7 * 4) 258.

Definition extra_dist_bits : list Z :=
  fill_extra 28 0 2 2 (repeat 0 30).

Definition base_dists : list Z :=
  fill_base 30 0 1 extra_dist_bits (repeat 0 30).

(** ** The gzip header ([main], lines 127-161) *)

Fixpoint strlen_from (s : list byte) : outcome Z :=
  match s with
  | [] => Undef
  | b :: t => if byte_val b =? 0 then Ret 0 else n <- strlen_from t ;; Ret (n + 1)
  end.

(** [strlen((char* )gz + off)]: a scan that leaves the file is an access
    outside it. *)
Definition strlen (gz : list byte) (off : Z) : outcome Z :=
  strlen_from (skipn (Z.to_nat off) gz).

(** Size, magic and method checks; returns [flags].  The messages are the
    format strings of the source without the final newline. *)
Definition header_fixed (gz : list byte) : outcome Z :=
  let size := Z.of_nat (length gz) in
  if size <? 10 then Fatal "file too small" else
  g0 <- load8 gz 0 ;;
  g1 <- load8 gz 1 ;;
  if negb ((g0 =? 0x1f) && (g1 =? 0x8b)) then Fatal "invalid file header" else
  g2 <- load8 gz 2 ;;
  if negb (g2 =? 8) then Fatal "unexpected compression method %d" else
  flags <- load8 gz 3 ;;
  mtime <- little_uint32t gz 4 ;;
  extra_flags <- load8 gz 8 ;;
  os <- load8 gz 9 ;;
  Ret flags.

(** [if (flags & 4) { ... off += 4 + extra_size; }]: the sum is formed in
    [uint32_t], then added to the [size_t] offset. *)
Definition skip_extra (gz : list byte) (flags off : Z) : outcome Z :=
  if Z.land flags 4 =? 0 then Ret off else
  extra_size <- little_uint32t gz off ;;
  Ret (size_t (off + uint32_t (4 + extra_size))).

(** [if (flags & mask) { ... off += strlen((char* )gz + off) + 1; }] *)
Definition skip_string (gz : list byte) (flags mask off : Z) : outcome Z :=
  if Z.land flags mask =? 0 then Ret off else
  n <- strlen gz off ;;
  Ret (size_t (off + size_t (n + 1))).

(** [if (flags & 2) { ... little_uint16t(gz + off) ...; off += 2; }] *)
Definition skip_hcrc (gz : list byte) (flags off : Z) : outcome Z :=
  if Z.land flags 2 =? 0 then Ret off else
  crc16 <- little_uint16t gz off ;;
  Ret (size_t (off + 2)).

(** The header as a whole; returns [off], the offset of the payload. *)
Definition parse_header (gz : list byte) : outcome Z :=
  flags <- header_fixed gz ;;
  off1 <- skip_extra gz flags 10 ;;
  off2 <- skip_string gz flags 8 off1 ;;
  off3 <- skip_string gz flags 16 off2 ;;
  skip_hcrc gz flags off3.

(** ** The decoder, for given Huffman routines

    [deflate_decode_pretree] and the block loop of [main] are written once
    over the two Huffman routines they call, so that their own code can be
    followed on every symbol a tree reader may deliver; the program itself
    is the instance at [init_hufftree] and [readsym] below. *)

Definition pretree_order : list Z :=
  [16; 17; 18; 0; 8; 7; 9; 6; 10; 5; 11; 4; 12; 3; 13; 2; 14; 1; 15].

(** [for (i = 0; i < num_pretree; ++i)
      pretree_lengths[pretree_order[i]] = getbits(&bitstream, 3);] *)
Fixpoint read_pretree_lengths (k : nat) (i : Z) (pl : list Z) (bs : Bitstream)
  : outcome (list Z * Bitstream) :=
  match k with
  | O => Ret (pl, bs)
  | S k' =>
      idx <- load pretree_order i ;;
      '(v, bs1) <- getbits bs 3 ;;
      pl1 <- store pl idx v ;;
      read_pretree_lengths k' (i + 1) pl1 bs1
  end.

(** [for (; i < 19; ++i) pretree_lengths[pretree_order[i]] = 0;] *)
Fixpoint zero_pretree_lengths (k : nat) (i : Z) (pl : list Z) : outcome (list Z) :=
  match k with
  | O => Ret pl
  | S k' =>
      idx <- load pretree_order i ;;
      pl1 <- store pl idx 0 ;;
      zero_pretree_lengths k' (i + 1) pl1
  end.

(** The fixed code lengths ([main], lines 221-228). *)
Definition fixed_lengths (lengths : list Z) : outcome (list Z * Z * Z) :=
  l1 <- fill_val 144 0 8 lengths ;;
  l2 <- fill_val (256 - 144) 144 9 l1 ;;
  l3 <- fill_val (280 - 256) 256 7 l2 ;;
  l4 <- fill_val (288 - 280) 280 8 l3 ;;
  l5 <- fill_val 30 288 5 l4 ;;
  Ret (l5, 288, 30).

Section Engine.

Variable tree : Type.
Variable build : list Z -> Z -> outcome tree.
Variable sym : tree -> Bitstream -> outcome (Z * Bitstream).

(** The [while (i < num_lengths)] loop; it runs at most [num_lengths]
    times since [i] grows in every round. *)
Fixpoint pretree_loop (fuel : nat) (pretree : tree) (num_lengths : Z)
         (i : Z) (lengths : list Z) (bs : Bitstream)
  : outcome (list Z * Z * Bitstream) :=
  if i <? num_lengths then
    match fuel with
    | O => OutOfFuel
    | S fuel' =>
        '(code, bs1) <- sym pretree bs ;;
        if code <=? 15 then
          l1 <- store lengths i code ;;
          pretree_loop fuel' pretree num_lengths (i + 1) l1 bs1
        else if code =? 16 then
          '(x, bs2) <- getbits bs1 2 ;;
          let n := 3 + x in
          l1 <- fill_prev (Z.to_nat n) i i lengths ;;
          pretree_loop fuel' pretree num_lengths (i + n) l1 bs2
        else if code =? 17 then
          '(x, bs2) <- getbits bs1 3 ;;
          let n := 3 + x in
          l1 <- fill_val (Z.to_nat n) i 0 lengths ;;
          pretree_loop fuel' pretree num_lengths (i + n) l1 bs2
        else
          '(x, bs2) <- getbits bs1 7 ;;
          let n := 11 + x in
          l1 <- fill_val (Z.to_nat n) i 0 lengths ;;
          pretree_loop fuel' pretree num_lengths (i + n) l1 bs2
    end
  else Ret (lengths, i, bs).

(** Returns the array, the final value of [i] and the bit stream. *)
Definition deflate_decode_pretree_with (pretree : tree) (bs : Bitstream)
           (lengths : list Z) (num_lengths : Z)
  : outcome (list Z * Z * Bitstream) :=
  pretree_loop (Z.to_nat num_lengths) pretree num_lengths 0 lengths bs.

(** The code-length code of a dynamic block ([main], lines 203-211):
    returns [num_literals_lengths], [num_distances], [pretree_lengths]. *)
Definition read_pretree (bs : Bitstream) : outcome (Z * Z * list Z * Bitstream) :=
  '(hlit, bs1) <- getbits bs 5 ;;
  let num_literals_lengths := hlit + 257 in
  '(hdist, bs2) <- getbits bs1 5 ;;
  let num_distances := hdist + 1 in
  '(hclen, bs3) <- getbits bs2 4 ;;
  let num_pretree := hclen + 4 in
  '(pl1, bs4) <- read_pretree_lengths (Z.to_nat num_pretree) 0 (repeat 0 19) bs3 ;;
  pl2 <- zero_pretree_lengths (Z.to_nat (19 - num_pretree)) num_pretree pl1 ;;
  Ret (num_literals_lengths, num_distances, pl2, bs4).

(** [if (block_type == 2) { ... }] ([main], lines 201-219). *)
Definition dynamic_lengths (bs : Bitstream) (lengths : list Z)
  : outcome (list Z * Z * Z * Bitstream) :=
  '(num_literals_lengths, num_distances, pretree_lengths, bs1) <- read_pretree bs ;;
  pretree <- build pretree_lengths 19 ;;
  '(l1, _, bs2) <- deflate_decode_pretree_with pretree bs1 lengths
                     (num_literals_lengths + num_distances) ;;
  Ret (l1, num_literals_lengths, num_distances, bs2).

(** The symbol loop [do { ... } while (code != 256);] ([main], lines
    235-252). *)
Fixpoint symbols_loop (fuel : nat) (littree disttree : tree) (bs : Bitstream)
  : outcome Bitstream :=
  match fuel with
  | O => OutOfFuel
  | S fuel' =>
      '(code, bs1) <- sym littree bs ;;
      '(code1, bs5) <-
        (if code <? 256 then Ret (code, bs1)
         else
           let code := code - 257 in
           base <- load base_lengths code ;;
           extra <- load extra_len_bits code ;;
           '(x, bs2) <- getbits bs1 extra ;;
           let match_len := base + x in
           '(dist, bs3) <- sym disttree bs2 ;;
           dbase <- load base_dists dist ;;
           dextra <- load extra_dist_bits dist ;;
           '(y, bs4) <- getbits bs3 dextra ;;
           let match_offset := dbase + y in
           Ret (code, bs4)) ;;
      if code1 =? 256 then Ret bs5
      else symbols_loop fuel' littree disttree bs5
  end.

(** The head of one round of the block loop ([main], lines 193-233):
    the block header and the two trees; returns [is_last_block], the
    trees and the bit stream. *)
Definition block_trees (bs : Bitstream) : outcome (Z * tree * tree * Bitstream) :=
  '(is_last_block, bs1) <- getbit bs ;;
  '(block_type, bs2) <- getbits bs1 2 ;;
  if block_type =? 3 then Fatal "invalid block" else
  if block_type =? 0 then Fatal "unsupported uncompressed block" else
  '(lengths, num_literals_lengths, num_distances, bs3) <-
    (if block_type =? 2 then dynamic_lengths bs2 (repeat 0 (288 + 30))
     else '(l, nl, nd) <- fixed_lengths (repeat 0 (288 + 30)) ;; Ret (l, nl, nd, bs2)) ;;
  littree <- build lengths num_literals_lengths ;;
  disttree <- build (skipn (Z.to_nat num_literals_lengths) lengths) num_distances ;;
  Ret (is_last_block, littree, disttree, bs3).

(** One round of the block loop ([main], lines 193-252): returns
    [is_last_block] and the bit stream. *)
Definition block (fuel : nat) (bs : Bitstream) : outcome (Z * Bitstream) :=
  '(is_last_block, littree, disttree, bs3) <- block_trees bs ;;
  bs4 <- symbols_loop fuel littree disttree bs3 ;;
  Ret (is_last_block, bs4).

(** [do { ... } while (!is_last_block);] *)
Fixpoint blocks_loop (fuel : nat) (bs : Bitstream) : outcome Bitstream :=
  match fuel with
  | O => OutOfFuel
  | S fuel' =>
      '(is_last_block, bs1) <- block fuel' bs ;;
      if is_last_block =? 0 then blocks_loop fuel' bs1 else Ret bs1
  end.

(** [main] on the bytes of the file named by [argv[1]]. *)
Definition main_with (fuel : nat) (gz : list byte) : outcome unit :=
  let size := Z.of_nat (length gz) in
  off <- parse_header gz ;;
  bitstream <- bitstream_init (skipn (Z.to_nat off) gz) (size_t (size - off - 8)) ;;
  _ <- blocks_loop fuel bitstream ;;
  Ret tt.

End Engine.

(** ** The program *)

Definition deflate_decode_pretree := deflate_decode_pretree_with HuffTree readsym.

Definition main := main_with HuffTree init_hufftree readsym.

(** [main(argc, argv)] from its first line ([main], lines 114-118):
    [file] is what [fopen(argv[1], "rb")] finds, [None] when the file
    cannot be opened. *)
Definition main_argv (fuel : nat) (argc : Z) (file : option (list byte))
  : outcome unit :=
  if argc <=? 1 then Fatal "need filename" else
  match file with
  | None => Fatal "failed to open %s"
  | Some gz => main fuel gz
  end.

(** ** Canonical Huffman codes, as the specification words them *)

Module Canonical.

(** Modelled from the spec: [struct HuffTree] has no members in the source.
    A tree is the mapping from (bit-length, code value) to symbol, kept as
    the list of its triples. *)
Definition Tree : Type := list (Z * Z * Z).

(** Modelled from the spec: the body of [init_hufftree] is missing from
    the source.  [length_count[l]]: how many symbols use length [l]. *)
Definition length_count (code_lengths : list Z) (l : Z) : Z :=
  Z.of_nat (length (filter (Z.eqb l) code_lengths)).

(** Modelled from the spec: the body of [init_hufftree] is missing from
    the source.  [first_code[1] = 0];
    [first_code[l] = (first_code[l-1] + length_count[l-1]) << 1]. *)
Fixpoint first_code (code_lengths : list Z) (l : nat) : Z :=
  match l with
  | O => 0
  | S l' =>
      match l' with
      | O => 0
      | S _ =>
          Z.shiftl (first_code code_lengths l'
                    + length_count code_lengths (Z.of_nat l')) 1
      end
  end.

(** Modelled from the spec: the body of [init_hufftree] is missing from
    the source.  Walk the symbols in index order; a symbol with nonzero
    length takes the next available code of its length; a code that does
    not fit in its length is [InvalidHuffmanTree]. *)
Fixpoint assign (code_lengths : list Z) (symbol : Z) (next : Z -> Z)
  : outcome Tree :=
  match code_lengths with
  | [] => Ret []
  | l :: rest =>
      if l =? 0 then assign rest (symbol + 1) next
      else
        let c := next l in
        if 2 ^ l <=? c then Fatal "InvalidHuffmanTree"
        else
          t <- assign rest (symbol + 1) (fun k => if k =? l then c + 1 else next k) ;;
          Ret ((l, c, symbol) :: t)
  end.

(** Modelled from the spec: the body of [init_hufftree] is missing from
    the source.  [build(code_lengths) -> Tree | Error], on the first
    [nodecount] entries behind the pointer. *)
Definition build (nodelengths : list Z) (nodecount : Z) : outcome Tree :=
  let code_lengths := firstn (Z.to_nat nodecount) nodelengths in
  assign code_lengths 0 (fun l => first_code code_lengths (Z.to_nat l)).

(** Modelled from the spec: the body of [readsym] is missing from the
    source.  Whether any symbol has the pair (length, code). *)
Fixpoint lookup (t : Tree) (len code : Z) : option Z :=
  match t with
  | [] => None
  | (l, c, s) :: rest =>
      if (l =? len) && (c =? code) then Some s else lookup rest len code
  end.

(** Modelled from the spec: the body of [readsym] is missing from the
    source.  The symbol that [len] bits of value [code] stand for.  A tree
    with exactly one symbol is the degenerate tree, which always decodes to
    that symbol and never fails: its bits are not compared. *)
Definition find (t : Tree) (len code : Z) : option Z :=
  match t with
  | [(l, _, s)] => if l =? len then Some s else None
  | _ => lookup t len code
  end.

(** Modelled from the spec: the body of [readsym] is missing from the
    source.  Read one bit at a time, keep a running code value, return at
    the first (length, code) pair that has a symbol; [InvalidHuffmanCode]
    once the maximum length is exceeded.  [k] lengths remain to be tried;
    the bits come from the program's [getbit]. *)
Fixpoint decode_loop (k : nat) (t : Tree) (len code : Z) (bs : Bitstream)
  : outcome (Z * Bitstream) :=
  match k with
  | O => Fatal "InvalidHuffmanCode"
  | S k' =>
      '(b, bs1) <- getbit bs ;;
      let code1 := Z.lor (Z.shiftl code 1) b in
      match find t (len + 1) code1 with
      | Some s => Ret (s, bs1)
      | None => decode_loop k' t (len + 1) code1 bs1
      end
  end.

Definition decode (t : Tree) (bs : Bitstream) : outcome (Z * Bitstream) :=
  decode_loop 15 t 0 0 bs.

End Canonical.

(** ** The output window, as the specification words it *)

Module OutputWindow.

(** Modelled from the spec: the source has no output buffer; the calls
    [window.output_literal] and [window.copy_match] are comments in
    [main].  [append_literal(byte)] appends one byte. *)
Definition append_literal (w : list byte) (b : byte) : list byte := w ++ [b].

(** Modelled from the spec: the source has no output buffer.  One step of
    a copy: the byte [distance] positions back from the end of the output
    as it is now is appended. *)
Definition copy_byte (distance : Z) (w : list byte) : list byte :=
  w ++ [nth (Z.to_nat (Z.of_nat (length w) - distance)) w x00].

(** Modelled from the spec: the source has no output buffer.  [k] bytes,
    one at a time. *)
Fixpoint copy_bytes (k : nat) (distance : Z) (w : list byte) : list byte :=
  match k with
  | O => w
  | S k' => copy_bytes k' distance (copy_byte distance w)
  end.

(** Modelled from the spec: the source has no output buffer.
    [copy_match(distance, length)] validates
    [1 <= distance <= current_length], else [InvalidDistance]; then
    appends [length] bytes one at a time. *)
Definition copy_match (w : list byte) (distance len : Z) : outcome (list byte) :=
  if (1 <=? distance) && (distance <=? Z.of_nat (length w))
  then Ret (copy_bytes (Z.to_nat len) distance w)
  else Fatal "InvalidDistance".

End OutputWindow.

(** ** Positions in the stream *)

(** Bit [p] of the stream: bit [p mod 8] of byte [p / 8], least-significant
    bit first. *)
Definition stream_bit (src : list byte) (p : Z) : Z :=
  Z.b2z (Z.testbit (byte_val (nth (Z.to_nat (p / 8)) src x00)) (p mod 8)).

(** The sum over [i < n] of [f i] shifted left by [i]. *)
Fixpoint sum_shifted (f : Z -> Z) (n : nat) : Z :=
  match n with
  | O => 0
  | S k => sum_shifted f k + Z.shiftl (f (Z.of_nat k)) (Z.of_nat k)
  end.

(** The [n] bits from position [p] on, first bit least significant. *)
Definition bits_at (src : list byte) (p : Z) (n : Z) : Z :=
  sum_shifted (fun i => stream_bit src (p + i)) (Z.to_nat n).

(** Byte [i] of a file, as a number. *)
Definition byte_at (m : list byte) (i : Z) : Z := byte_val (nth (Z.to_nat i) m x00).

(** The little-endian 32-bit number in bytes [p .. p+3]. *)
Definition le32_at (m : list byte) (p : Z) : Z :=
  byte_at m p + 2 ^ 8 * byte_at m (p + 1) + 2 ^ 16 * byte_at m (p + 2)
  + 2 ^ 24 * byte_at m (p + 3).

(** [pretree_order[j]] *)
Definition order (j : Z) : Z := nth (Z.to_nat j) pretree_order 0.

(** The cursor of a bit stream, in bits from the start of [source]. *)
Definition bitpos (bs : Bitstream) : Z := 8 * curword bs + curbit bs.

(** The bit a read returns [i] bits after the state [bs] when the cached
    word is not reloaded: the cursor goes round the 16 bits of
    [curword_val]. *)
Definition cached_bit (bs : Bitstream) (i : Z) : Z :=
  Z.b2z (Z.testbit (curword_val bs) ((curbit bs + i) mod 16)).

(** The state [n] bits after [bs] when the cached word is not reloaded:
    only the cursor has moved. *)
Definition past_end (bs : Bitstream) (n : Z) : Bitstream :=
  mkBitstream ((curbit bs + n) mod 16) (curword bs + 2 * ((curbit bs + n) / 16))
              (curword_val bs) (source bs) (source_len bs).

(** The 16-bit word at byte offset [w]. *)
Definition word_at (src : list byte) (w : Z) : Z :=
  uint16_t (Z.lor (Z.shiftl (byte_val (nth (Z.to_nat (w + 1)) src x00)) 8)
                  (byte_val (nth (Z.to_nat w) src x00))).

(** A bit stream whose cursor and cached word agree with its buffer:
    [source] holds [source_len] bytes (and the pad byte of a last odd word),
    the cursor is on an even byte, and while it is inside the buffer the
    cached word is the one under it. *)
Record wf_bitstream (bs : Bitstream) : Prop := {
  wf_curbit : 0 <= curbit bs <= 15;
  wf_curword : 0 <= curword bs /\ curword bs mod 2 = 0;
  wf_len : 0 <= source_len bs /\ source_len bs + 1 < 2 ^ 64;
  wf_mem : source_len bs + source_len bs mod 2 <= Z.of_nat (length (source bs));
  wf_val : curword bs < source_len bs ->
           curword_val bs = word_at (source bs) (curword bs)
}.

(** ** The tables of RFC 1951, section 3.2.5 *)

(** (base value, extra bits) for the length codes 257..285, as the RFC
    prints them. *)
Definition rfc1951_lengths : list (Z * Z) :=
  [(3, 0); (4, 0); (5, 0); (6, 0); (7, 0); (8, 0); (9, 0); (10, 0);
   (11, 1); (13, 1); (15, 1); (17, 1);
   (19, 2); (23, 2); (27, 2); (31, 2);
   (35, 3); (43, 3); (51, 3); (59, 3);
   (67, 4); (83, 4); (99, 4); (115, 4);
   (131, 5); (163, 5); (195, 5); (227, 5);
   (258, 0)].

(** (base value, extra bits) for the distance codes 0..29. *)
Definition rfc1951_distances : list (Z * Z) :=
  [(1, 0); (2, 0); (3, 0); (4, 0);
   (5, 1); (7, 1); (9, 2); (13, 2); (17, 3); (25, 3);
   (33, 4); (49, 4); (65, 5); (97, 5); (129, 6); (193, 6);
   (257, 7); (385, 7); (513, 8); (769, 8); (1025, 9); (1537, 9);
   (2049, 10); (3073, 10); (4097, 11); (6145, 11);
   (8193, 12); (12289, 12); (16385, 13); (24577, 13)].

(** ** Fatal errors *)

(** Every fatal error [o] can end in carries a message of [msgs]. *)
Definition fatal_in {A : Type} (msgs : list string) (o : outcome A) : Prop :=
  forall msg, o = Fatal msg -> In msg msgs.

(** The outcome is not the loop bound of the model. *)
Definition has_fuel {A : Type} (o : outcome A) : Prop := o <> OutOfFuel.

(** The messages [main] passes to [fatal()] once the file is read. *)
Definition main_fatal_messages : list string :=
  ["file too small"; "invalid file header"; "unexpected compression method %d";
   "invalid block"; "unsupported uncompressed block"]%string.

(** The messages of all the [fatal()] calls of [main]. *)
Definition main_argv_fatal_messages : list string :=
  ["need filename"; "failed to open %s"]%string ++ main_fatal_messages.

(** ** Test data *)

(** gzip of the empty input: one fixed block holding only end-of-block. *)
Definition gz_empty (isize : list byte) : list byte :=
  [x1f; x8b; x08; x00; x00; x00; x00; x00; x00; x03;
   x03; x00;
   x00; x00; x00; x00] ++ isize.

(** The state of the demo stream [8d 01 ff 00] after three bits. *)
Definition bs_demo : Bitstream := mkBitstream 3 0 0x018d [x8d; x01; xff; x00] 4.

(** The state of the two-byte stream [ff ff] after all sixteen bits. *)
Definition bs_at_end : Bitstream := mkBitstream 0 2 0xffff [xff; xff] 2.

(** A gzip file whose payload is one final stored block of length 0
    ([01 00 00 ff ff]), followed by the 8-byte trailer. *)
Definition stored_payload : list byte :=
  [x01; x00; x00; xff; xff; x00; x00; x00; x00; x00; x00; x00; x00].

Definition gz_stored : list byte :=
  [x1f; x8b; x08; x00; x00; x00; x00; x00; x00; x03] ++ stored_payload.

(** The bit stream [main] starts with on [gz_stored]. *)
Definition bs_stored : Bitstream := mkBitstream 0 0 0x0001 stored_payload 5.

(** [gz_empty] with a trailer that declares 100 bytes. *)
Definition gz_empty_100 : list byte := gz_empty [x64; x00; x00; x00].

(** A gzip header with FEXTRA set and the extra size [fc ff ff ff]. *)
Definition gz_extra_wrap : list byte :=
  [x1f; x8b; x08; x04; x00; x00; x00; x00; x00; x03;
   xfc; xff; xff; xff;
   x03; x00;
   x00; x00; x00; x00; x00; x00; x00; x00].

(** A gzip header with FEXTRA set and a two-byte extra field. *)
Definition gz_extra_2 : list byte :=
  [x1f; x8b; x08; x04; x00; x00; x00; x00; x00; x03;
   x02; x00; x00; x00; x41; x42;
   x03; x00;
   x00; x00; x00; x00; x00; x00; x00; x00].

(** The stream [01 00] at its start, and after one bit. *)
Definition bs_one : Bitstream := mkBitstream 0 0 0x0001 [x01; x00] 2.
Definition bs_one_1 : Bitstream := mkBitstream 1 0 0x0001 [x01; x00] 2.

(** A dynamic block with HLIT = HDIST = HCLEN = 0 whose code-length code
    gives symbol 16 the code 0 and whose first code-length symbol is 16:
    [05 00 22 01], then padding. *)
Definition payload_repeat_first : list byte :=
  [x05; x00; x22; x01; x00; x00; x00; x00; x00; x00; x00; x00; x00; x00].

(** Its bit stream at the start of the block, after the three header bits,
    and after the code-length code (29 bits). *)
Definition bs_repeat_first : Bitstream := mkBitstream 0 0 0x0005 payload_repeat_first 6.
Definition bs_repeat_first_3 : Bitstream := mkBitstream 3 0 0x0005 payload_repeat_first 6.
Definition bs_repeat_first_29 : Bitstream :=
  mkBitstream 13 2 0x0122 payload_repeat_first 6.

(** The 19 code-length-code lengths of that block, and its tree. *)
Definition pretree_lengths_repeat_first : list Z :=
  [0; 0; 0; 0; 0; 0; 0; 0; 0; 0; 0; 0; 0; 0; 0; 0; 1; 2; 2].
Definition pretree_repeat_first : Canonical.Tree := [(1, 0, 16); (2, 2, 17); (2, 3, 18)].

(** A dynamic block with HLIT = HDIST = HCLEN = 0 (258 lengths declared)
    whose code-length symbols are 18 with run 138, twice:
    [05 00 80 e4 ff 1f], then padding. *)
Definition payload_overrun : list byte :=
  [x05; x00; x80; xe4; xff; x1f; x00; x00; x00; x00; x00; x00; x00; x00].

Definition bs_overrun : Bitstream := mkBitstream 0 0 0x0005 payload_overrun 6.
Definition bs_overrun_29 : Bitstream := mkBitstream 13 2 0xe480 payload_overrun 6.
Definition pretree_overrun : Canonical.Tree := [(1, 0, 0); (1, 1, 18)].

(** A file of nine bytes with a good magic and method. *)
Definition gz_short : list byte := [x1f; x8b; x08; x00; x00; x00; x00; x00; x00].

(** Twenty bytes with the magic [00 00]. *)
Definition gz_bad_magic : list byte :=
  [x00; x00; x08; x00; x00; x00; x00; x00; x00; x03;
   x03; x00; x00; x00; x00; x00; x00; x00; x00; x00].

(** Twenty bytes with the compression method 7. *)
Definition gz_bad_method : list byte :=
  [x1f; x8b; x07; x00; x00; x00; x00; x00; x00; x03;
   x03; x00; x00; x00; x00; x00; x00; x00; x00; x00].

(** FNAME set, name "ab". *)
Definition gz_name : list byte :=
  [x1f; x8b; x08; x08; x00; x00; x00; x00; x00; x03;
   x61; x62; x00;
   x03; x00; x00; x00; x00; x00; x00; x00; x00; x00].

(** FNAME set, and no zero byte from offset 10 on. *)
Definition gz_name_open : list byte :=
  [x1f; x8b; x08; x08; x00; x00; x00; x00; x00; x03;
   x61; x62; x63; x64].

(** FEXTRA set with an extra size of 100 in a file of 24 bytes. *)
Definition gz_extra_far : list byte :=
  [x1f; x8b; x08; x04; x00; x00; x00; x00; x00; x03;
   x64; x00; x00; x00;
   x03; x00;
   x00; x00; x00; x00; x00; x00; x00; x00].

(** A payload whose first block has the reserved type 11. *)
Definition payload_reserved : list byte :=
  [x07; x00; x00; x00; x00; x00; x00; x00; x00; x00].

Definition bs_reserved : Bitstream := mkBitstream 0 0 0x0007 payload_reserved 2.

(** The code lengths of a fixed block, literal/length part and distance
    part. *)
Definition fixed_literal_lengths : list Z :=
  repeat 8 144 ++ repeat 9 112 ++ repeat 7 24 ++ repeat 8 8.

Definition fixed_distance_lengths : list Z := repeat 5 30.

(** The bit stream of [gz_empty] at the start of its only block. *)
Definition bs_empty : Bitstream :=
  mkBitstream 0 0 0x0003 [x03; x00; x00; x00; x00; x00; x00; x00; x00; x00] 2.

(** Streams that start with the code of symbol 17 (bits 1,0) and extra bits
    1,0,1, and with the code of symbol 18 (bits 1,1) and seven extra bits 0,
    under the code-length code of [pretree_repeat_first]; [c] is the
    cursor. *)
Definition bs_sym17 (c : Z) : Bitstream := mkBitstream c 0 0x0015 [x15; x00; x00; x00] 4.
Definition bs_sym18 (c : Z) : Bitstream := mkBitstream c 0 0x0003 [x03; x00; x00; x00] 4.

(** A dynamic block with HLIT = 31 and HDIST = 31 (320 lengths declared)
    and HCLEN = 0: [fd 1f 00 00], then padding. *)
Definition payload_320 : list byte :=
  [xfd; x1f; x00; x00; x00; x00; x00; x00; x00; x00; x00; x00; x00; x00].

Definition bs_320 : Bitstream := mkBitstream 0 0 0x1ffd payload_320 6.

(** The three-byte buffer [01 02 03], with the byte [aa] behind it, at its
    end: 24 bits have been read, the cursor is in the middle of the last
    word. *)
Definition bs_odd_end : Bitstream := mkBitstream 8 2 0xaa03 [x01; x02; x03; xaa] 3.

(** gzip of "AAAAAA": one fixed block holding the literal 'A', a match of
    length 5 at distance 1 and end-of-block ([73 04 03 00]), then the CRC
    and the size 6. *)
Definition payload_a_match : list byte :=
  [x73; x04; x03; x00; x7e; xde; x1c; xaa; x06; x00; x00; x00].

Definition gz_a_match : list byte :=
  [x1f; x8b; x08; x00; x00; x00; x00; x00; x00; x03] ++ payload_a_match.

(** The bit stream [main] starts with on [gz_a_match], and after the three
    header bits of the block. *)
Definition bs_a_match : Bitstream := mkBitstream 0 0 0x0473 payload_a_match 4.
Definition bs_a_match_3 : Bitstream := mkBitstream 3 0 0x0473 payload_a_match 4.

(** The gzip files whose payloads are [payload_repeat_first] and
    [payload_overrun]: six bytes of payload and the eight bytes of the
    trailer. *)
Definition gz_repeat_first : list byte :=
  [x1f; x8b; x08; x00; x00; x00; x00; x00; x00; x03] ++ payload_repeat_first.

Definition gz_overrun : list byte :=
  [x1f; x8b; x08; x00; x00; x00; x00; x00; x00; x03] ++ payload_overrun.

(** * Proofs *)

(** ** Bytes and bits *)

Lemma byte_val_range (b : byte) : 0 <= byte_val b < 256.
Proof.
  unfold byte_val. pose proof (Byte.to_N_bounded b). lia.
Qed.

Lemma small_testbit_high (a i : Z) :
  0 <= a < 256 -> 8 <= i -> Z.testbit a i = false.
Proof.
  intros Ha Hi. apply Z.testbit_false; [lia|].
  rewrite Z.div_small; [reflexivity|].
  assert (2 ^ 8 <= 2 ^ i) by (apply Z.pow_le_mono_r; lia).
  change (2 ^ 8) with 256 in *. lia.
Qed.

Lemma word_testbit (b0 b1 i : Z) :
  0 <= b0 < 256 -> 0 <= i <= 15 ->
  Z.testbit (uint16_t (Z.lor (Z.shiftl b1 8) b0)) i
  = if i <? 8 then Z.testbit b0 i else Z.testbit b1 (i - 8).
Proof.
  intros Hb Hi. unfold uint16_t.
  rewrite Z.mod_pow2_bits_low by lia.
  rewrite Z.lor_spec, Z.shiftl_spec by lia.
  destruct (i <? 8) eqn:E.
  - apply Z.ltb_lt in E. rewrite Z.testbit_neg_r by lia. reflexivity.
  - apply Z.ltb_ge in E. rewrite (small_testbit_high b0 i) by lia.
    apply orb_false_r.
Qed.

Lemma land_shiftr_1 (a n : Z) :
  0 <= n -> Z.land (Z.shiftr a n) 1 = Z.b2z (Z.testbit a n).
Proof.
  intros Hn. change 1 with (Z.ones 1) at 1.
  rewrite Z.land_ones by lia. rewrite Z.shiftr_div_pow2 by lia.
  rewrite Z.testbit_spec' by lia. reflexivity.
Qed.

Lemma b2z_range (b : bool) : 0 <= Z.b2z b <= 1.
Proof. destruct b; simpl; lia. Qed.

Lemma lor_shifted_bit (a b i : Z) :
  0 <= i -> 0 <= a < 2 ^ i -> 0 <= b <= 1 ->
  Z.lor a (Z.shiftl b i) = a + Z.shiftl b i.
Proof.
  intros Hi Ha Hb.
  assert (Hd : Z.land a (Z.shiftl b i) = 0).
  { apply Z.bits_inj'. intros n Hn.
    rewrite Z.land_spec, Z.shiftl_spec, Z.bits_0 by lia.
    destruct (Z.ltb_spec n i).
    - rewrite (Z.testbit_neg_r b) by lia. apply andb_false_r.
    - replace (Z.testbit a n) with false; [reflexivity|].
      symmetry. apply Z.testbit_false; [lia|].
      rewrite Z.div_small; [reflexivity|].
      assert (2 ^ i <= 2 ^ n) by (apply Z.pow_le_mono_r; lia). lia. }
  rewrite <- Z.lxor_lor by exact Hd.
  symmetry. apply Z.add_nocarry_lxor. exact Hd.
Qed.

Lemma sum_shifted_range (f : Z -> Z) (n : nat) :
  (forall i, 0 <= f i <= 1) -> 0 <= sum_shifted f n < 2 ^ Z.of_nat n.
Proof.
  intros Hf. induction n as [|k IH].
  - simpl. lia.
  - cbn [sum_shifted]. rewrite Z.shiftl_mul_pow2 by lia.
    rewrite Nat2Z.inj_succ, Z.pow_succ_r by lia.
    specialize (Hf (Z.of_nat k)). nia.
Qed.

Lemma stream_bit_range (src : list byte) (p : Z) : 0 <= stream_bit src p <= 1.
Proof. apply b2z_range. Qed.

(** ** The bit reader *)

Ltac conjs := repeat match goal with |- _ /\ _ => split end.

Lemma in_range_true {A : Type} (m : list A) (i : Z) :
  0 <= i < Z.of_nat (length m) -> in_range m i = true.
Proof. intros H. unfold in_range. apply andb_true_intro. split; lia. Qed.

Lemma in_range_false {A : Type} (m : list A) (i : Z) :
  i < 0 \/ Z.of_nat (length m) <= i -> in_range m i = false.
Proof. intros H. unfold in_range. apply andb_false_iff. lia. Qed.

Lemma load8_in (m : list byte) (i : Z) :
  0 <= i < Z.of_nat (length m) ->
  load8 m i = Ret (byte_val (nth (Z.to_nat i) m x00)).
Proof. intros H. unfold load8. rewrite in_range_true by exact H. reflexivity. Qed.

Lemma little_uint16t_in (m : list byte) (p : Z) :
  0 <= p -> p + 1 < Z.of_nat (length m) ->
  little_uint16t m p = Ret (word_at m p).
Proof.
  intros H0 H1. unfold little_uint16t.
  rewrite !load8_in by lia. reflexivity.
Qed.

Lemma word_at_bit (src : list byte) (w c : Z) :
  0 <= w -> 0 <= c <= 15 ->
  Z.b2z (Z.testbit (word_at src w) c) = stream_bit src (8 * w + c).
Proof.
  intros Hw Hc. unfold word_at, stream_bit.
  rewrite word_testbit by (try apply byte_val_range; lia).
  destruct (Z.ltb_spec c 8).
  - replace ((8 * w + c) / 8) with w by (apply Z.div_unique with c; lia).
    replace ((8 * w + c) mod 8) with c by (apply Z.mod_unique with w; lia).
    reflexivity.
  - replace ((8 * w + c) / 8) with (w + 1) by (apply Z.div_unique with (c - 8); lia).
    replace ((8 * w + c) mod 8) with (c - 8) by (apply Z.mod_unique with (w + 1); lia).
    reflexivity.
Qed.

Lemma getbit_spec (bs : Bitstream) :
  wf_bitstream bs -> bitpos bs < 8 * source_len bs ->
  exists bs',
    getbit bs = Ret (stream_bit (source bs) (bitpos bs), bs')
    /\ wf_bitstream bs'
    /\ bitpos bs' = bitpos bs + 1
    /\ source bs' = source bs
    /\ source_len bs' = source_len bs.
Proof.
  intros [Hcb [Hcw Hev] [Hl0 Hl1] Hmem Hval] Hpos.
  destruct bs as [cb cw val src sl]. unfold bitpos in *.
  cbn [curbit curword curword_val source source_len] in *.
  assert (Hin : cw < sl) by lia.
  unfold getbit. cbn [curbit curword curword_val source source_len].
  rewrite land_shiftr_1 by lia.
  rewrite (Hval Hin), word_at_bit by lia.
  destruct (Z.ltb_spec 15 (cb + 1)) as [Hwrap|Hstay].
  - assert (Hcw2 : size_t (cw + 2) = cw + 2).
    { unfold size_t. apply Z.mod_small.
      revert Hev Hin Hl1. generalize (2 ^ 64). intros. Z.div_mod_to_equations. lia. }
    rewrite Hcw2.
    destruct (Z.ltb_spec (cw + 2) sl) as [Hmore|Hend].
    + rewrite little_uint16t_in by (Z.div_mod_to_equations; lia).
      cbn [bind]. eexists. split; [reflexivity|].
      split; [constructor|repeat split]; cbn [curbit curword curword_val source source_len];
        try lia; try reflexivity.
      split; [lia|]. Z.div_mod_to_equations. lia.
    + eexists. split; [reflexivity|].
      split; [constructor|repeat split]; cbn [curbit curword curword_val source source_len];
        try lia; try reflexivity.
      split; [lia|]. Z.div_mod_to_equations. lia.
  - eexists. split; [reflexivity|].
    split; [constructor|repeat split]; cbn [curbit curword curword_val source source_len];
      try lia; try reflexivity.
Qed.

Lemma getbits_loop_spec (src : list byte) (sl p0 : Z) (k : nat) :
  forall (j : nat) (bs : Bitstream),
    wf_bitstream bs -> source bs = src -> source_len bs = sl ->
    bitpos bs = p0 + Z.of_nat j ->
    p0 + Z.of_nat j + Z.of_nat k <= 8 * sl ->
    exists bs',
      getbits_loop k (Z.of_nat j)
                   (sum_shifted (fun i => stream_bit src (p0 + i)) j) bs
      = Ret (sum_shifted (fun i => stream_bit src (p0 + i)) (j + k), bs')
      /\ wf_bitstream bs'
      /\ bitpos bs' = p0 + Z.of_nat j + Z.of_nat k
      /\ source bs' = src
      /\ source_len bs' = sl.
Proof.
  induction k as [|k IH]; intros j bs Hwf Hsrc Hsl Hpos Hend.
  - cbn [getbits_loop]. exists bs. rewrite Nat.add_0_r.
    conjs; try assumption; try reflexivity; lia.
  - destruct (getbit_spec bs Hwf) as (bs1 & Hg & Hwf1 & Hpos1 & Hsrc1 & Hsl1); [lia|].
    cbn [getbits_loop]. rewrite Hg. cbn [bind].
    rewrite lor_shifted_bit;
      [ | lia
        | apply sum_shifted_range; intros; apply stream_bit_range
        | apply stream_bit_range ].
    rewrite Hsrc, Hpos.
    change (sum_shifted (fun i => stream_bit src (p0 + i)) j
            + Z.shiftl (stream_bit src (p0 + Z.of_nat j)) (Z.of_nat j))
      with (sum_shifted (fun i => stream_bit src (p0 + i)) (S j)).
    replace (Z.of_nat j + 1) with (Z.of_nat (S j)) by lia.
    destruct (IH (S j) bs1) as (bs' & Hg' & Hwf' & Hpos' & Hsrc' & Hsl');
      try congruence; try lia.
    exists bs'. replace (j + S k)%nat with (S j + k)%nat by lia.
    conjs; try assumption; lia.
Qed.

Lemma getbits_spec (bs : Bitstream) (n : Z) :
  wf_bitstream bs -> 0 <= n -> bitpos bs + n <= 8 * source_len bs ->
  exists bs',
    getbits bs n = Ret (bits_at (source bs) (bitpos bs) n, bs')
    /\ wf_bitstream bs'
    /\ bitpos bs' = bitpos bs + n
    /\ source bs' = source bs
    /\ source_len bs' = source_len bs.
Proof.
  intros Hwf Hn Hend.
  assert (H : exists bs',
             getbits_loop (Z.to_nat n) (Z.of_nat 0)
               (sum_shifted (fun i => stream_bit (source bs) (bitpos bs + i)) 0) bs
             = Ret (sum_shifted (fun i => stream_bit (source bs) (bitpos bs + i))
                                (0 + Z.to_nat n), bs')
             /\ wf_bitstream bs'
             /\ bitpos bs' = bitpos bs + Z.of_nat 0 + Z.of_nat (Z.to_nat n)
             /\ source bs' = source bs
             /\ source_len bs' = source_len bs).
  { apply getbits_loop_spec with (sl := source_len bs); try reflexivity; try assumption.
    - lia.
    - lia. }
  destruct H as (bs' & Hg & Hwf' & Hpos' & Hsrc' & Hsl').
  exists bs'. unfold getbits, bits_at. simpl in Hg. rewrite Hg.
  conjs; try assumption; try reflexivity. lia.
Qed.

Example getbits_demo :
  (bs <- bitstream_init [x8d; x01; xff; x00] 4 ;;
   '(a, bs1) <- getbits bs 3 ;;
   '(b, bs2) <- getbits bs1 7 ;;
   Ret (a, bs1, b, curbit bs2)) = Ret (5, bs_demo, 49, 10).
Proof. reflexivity. Qed.

Example bs_at_end_reached :
  (bs <- bitstream_init [xff; xff] 2 ;;
   '(a, bs1) <- getbits bs 16 ;;
   Ret (a, bs1)) = Ret (0xffff, bs_at_end).
Proof. reflexivity. Qed.

(** C3: for [0 <= n <= 16] and a bit stream whose next [n] bits lie inside
    the buffer, [getbits] returns the sum over [i < n] of stream bit
    [bitpos + i] shifted left by [i] (first bit read least significant,
    bytes taken in stream order), and leaves the cursor exactly [n] bits
    further in the same buffer. *)
Theorem getbits_lsb_first (bs : Bitstream) (n : Z) :
  wf_bitstream bs -> 0 <= n <= 16 -> bitpos bs + n <= 8 * source_len bs ->
  exists bs',
    getbits bs n
    = Ret (sum_shifted (fun i => stream_bit (source bs) (bitpos bs + i)) (Z.to_nat n),
           bs')
    /\ bitpos bs' = bitpos bs + n
    /\ source bs' = source bs
    /\ source_len bs' = source_len bs
    /\ wf_bitstream bs'.
Proof.
  intros Hwf Hn Hend.
  destruct (getbits_spec bs n Hwf) as (bs' & Hg & Hwf' & Hpos & Hsrc & Hsl); try lia.
  exists bs'. conjs; assumption.
Qed.

Lemma getbits_lsb_first_witness :
  wf_bitstream bs_demo /\ 0 <= 7 <= 16
  /\ bitpos bs_demo + 7 <= 8 * source_len bs_demo
  /\ exists bs',
      getbits bs_demo 7
      = Ret (sum_shifted (fun i => stream_bit (source bs_demo) (bitpos bs_demo + i))
                         (Z.to_nat 7), bs')
      /\ bitpos bs' = bitpos bs_demo + 7
      /\ source bs' = source bs_demo
      /\ source_len bs' = source_len bs_demo
      /\ wf_bitstream bs'.
Proof.
  assert (Hwf : wf_bitstream bs_demo).
  { constructor; cbn [bs_demo curbit curword curword_val source source_len].
    - lia.
    - split; [lia | reflexivity].
    - split; [lia | reflexivity].
    - vm_compute. discriminate.
    - intros _. reflexivity. }
  split; [exact Hwf|].
  split; [lia|].
  split; [vm_compute; discriminate|].
  apply (getbits_lsb_first bs_demo 7 Hwf); [lia | vm_compute; discriminate].
Defined.

Lemma getbit_at_end (bs : Bitstream) :
  0 <= curbit bs <= 15 -> 0 <= curword bs ->
  8 * source_len bs <= bitpos bs -> curword bs + 2 < 2 ^ 64 ->
  getbit bs = Ret (cached_bit bs 0, past_end bs 1).
Proof.
  destruct bs as [cb cw val src sl]. unfold bitpos, cached_bit, past_end, getbit.
  cbn [curbit curword curword_val source source_len].
  intros Hcb Hcw Hend Hw.
  rewrite land_shiftr_1 by lia.
  rewrite Z.add_0_r, (Z.mod_small cb 16) by lia.
  destruct (Z.ltb_spec 15 (cb + 1)) as [Hwrap|Hstay].
  - assert (cb = 15) by lia. subst cb.
    unfold size_t. rewrite (Z.mod_small (cw + 2)) by lia.
    destruct (Z.ltb_spec (cw + 2) sl); [lia|].
    change ((15 + 1) mod 16) with 0. change ((15 + 1) / 16) with 1.
    rewrite Z.mul_1_r. reflexivity.
  - rewrite (Z.mod_small (cb + 1) 16), (Z.div_small (cb + 1) 16) by lia.
    rewrite Z.mul_0_r, Z.add_0_r. reflexivity.
Qed.

Lemma past_end_step (bs : Bitstream) (j : Z) :
  0 <= curbit bs -> 0 <= j ->
  cached_bit (past_end bs j) 0 = cached_bit bs j
  /\ past_end (past_end bs j) 1 = past_end bs (j + 1).
Proof.
  intros Hcb Hj. unfold cached_bit, past_end.
  cbn [curbit curword curword_val source source_len]. split.
  - rewrite Z.add_0_r, Z.mod_mod by lia. reflexivity.
  - f_equal; Z.div_mod_to_equations; lia.
Qed.

Lemma getbits_loop_at_end (bs : Bitstream) (k : nat) :
  forall j : nat,
    0 <= curbit bs <= 15 -> 0 <= curword bs ->
    8 * source_len bs <= bitpos bs ->
    curword bs + 2 * Z.of_nat (j + k) + 2 < 2 ^ 64 ->
    getbits_loop k (Z.of_nat j) (sum_shifted (cached_bit bs) j) (past_end bs (Z.of_nat j))
    = Ret (sum_shifted (cached_bit bs) (j + k), past_end bs (Z.of_nat (j + k))).
Proof.
  induction k as [|k IH]; intros j Hcb Hcw Hend Hw.
  - rewrite Nat.add_0_r. reflexivity.
  - cbn [getbits_loop].
    destruct (past_end_step bs (Z.of_nat j)) as [Hbit Hnext]; [lia | lia |].
    rewrite getbit_at_end.
    + cbn [bind]. rewrite Hbit, Hnext.
      rewrite lor_shifted_bit;
        [ | lia
          | apply sum_shifted_range; intros; apply b2z_range
          | apply b2z_range ].
      change (sum_shifted (cached_bit bs) j
              + Z.shiftl (cached_bit bs (Z.of_nat j)) (Z.of_nat j))
        with (sum_shifted (cached_bit bs) (S j)).
      replace (Z.of_nat j + 1) with (Z.of_nat (S j)) by lia.
      replace (j + S k)%nat with (S j + k)%nat by lia.
      apply IH; try assumption. lia.
    + unfold past_end. cbn [curbit].
      pose proof (Z.mod_pos_bound (curbit bs + Z.of_nat j) 16). lia.
    + unfold past_end. cbn [curword]. Z.div_mod_to_equations. lia.
    + unfold bitpos in *. unfold past_end.
      cbn [curbit curword source_len]. Z.div_mod_to_equations. lia.
    + unfold past_end. cbn [curword]. Z.div_mod_to_equations. lia.
Qed.



(** The state [bs_odd_end] is the state of the program after the 24 bits
    of [01 02 03]; the twelve bits read there are the byte [aa] behind the
    buffer and then the low four bits of the word [aa03] again. *)
Example bs_odd_end_reached :
  (bs <- bitstream_init [x01; x02; x03; xaa] 3 ;;
   '(_, bs1) <- getbits bs 16 ;;
   '(_, bs2) <- getbits bs1 8 ;;
   Ret bs2) = Ret bs_odd_end
  /\ bitpos bs_odd_end = 8 * source_len bs_odd_end
  /\ curword bs_odd_end < source_len bs_odd_end
  /\ getbits bs_odd_end 12 = Ret (0x3aa, mkBitstream 4 4 0xaa03 [x01; x02; x03; xaa] 3).
Proof. conjs; reflexivity. Qed.


(** ** The output window *)

(** What the specification asks of [copy_match], on three examples: an
    overlapping copy, and the two distances outside the output. *)
Example copy_match_abc :
  OutputWindow.copy_match ["a"; "b"; "c"]%byte 3 7
  = Ret ["a"; "b"; "c"; "a"; "b"; "c"; "a"; "b"; "c"; "a"]%byte
  /\ OutputWindow.copy_match ["a"; "b"; "c"]%byte 4 1 = Fatal "InvalidDistance"
  /\ OutputWindow.copy_match ["a"; "b"; "c"]%byte 0 1 = Fatal "InvalidDistance".
Proof. conjs; reflexivity. Qed.

(** ** The length and distance tables *)

(** C7: the tables [main] computes are the tables of RFC 1951, section
    3.2.5.  For length codes 257..284 the base values start at 3 and each is
    the previous one plus two to the previous extra-bit count; for distance
    codes 0..29 they start at 1 and follow the same rule; code 285 has no
    extra bits and the value 258, where the progression would give 259. *)
Theorem tables_match_rfc1951 :
  combine base_lengths extra_len_bits = rfc1951_lengths
  /\ combine base_dists extra_dist_bits = rfc1951_distances
  /\ nth 0 base_lengths 0 = 3
  /\ Forall (fun c : nat =>
               nth (S c) base_lengths 0
               = nth c base_lengths 0 + 2 ^ nth c extra_len_bits 0)
            (seq 0 27)
  /\ nth 0 base_dists 0 = 1
  /\ Forall (fun d : nat =>
               nth (S d) base_dists 0
               = nth d base_dists 0 + 2 ^ nth d extra_dist_bits 0)
            (seq 0 29)
  /\ nth 28 base_lengths 0 = 258
  /\ nth 28 extra_len_bits 0 = 0
  /\ nth 27 base_lengths 0 + 2 ^ nth 27 extra_len_bits 0 = 259.
Proof.
  conjs; try reflexivity.
  - repeat constructor.
  - repeat constructor.
Qed.

(** ** Stored blocks *)

Lemma bits_at_2 (src : list byte) (p : Z) :
  bits_at src p 2 = stream_bit src p + 2 * stream_bit src (p + 1).
Proof.
  unfold bits_at. change (Z.to_nat 2) with 2%nat. cbn [sum_shifted].
  rewrite !Z.shiftl_mul_pow2 by lia. change (2 ^ Z.of_nat 0) with 1.
  change (2 ^ Z.of_nat 1) with 2. rewrite Z.add_0_r. change (Z.of_nat 0) with 0.
  change (Z.of_nat 1) with 1. lia.
Qed.

(** C8 (as the code has it): a block whose two type bits are 00 ends the
    run with the fatal error "unsupported uncompressed block" as soon as the
    type field is read, whatever the Huffman routines are; the cursor is not
    aligned, no LEN or NLEN is read and no byte is copied. *)
Theorem stored_block_is_fatal
        (tree : Type) (build : list Z -> Z -> outcome tree)
        (sym : tree -> Bitstream -> outcome (Z * Bitstream))
        (fuel : nat) (bs : Bitstream) :
  wf_bitstream bs ->
  bitpos bs + 3 <= 8 * source_len bs ->
  stream_bit (source bs) (bitpos bs + 1) = 0 ->
  stream_bit (source bs) (bitpos bs + 2) = 0 ->
  block tree build sym fuel bs = Fatal "unsupported uncompressed block".
Proof.
  intros Hwf Hend Hb1 Hb2. unfold block, block_trees.
  destruct (getbit_spec bs Hwf) as (bs1 & Hg1 & Hwf1 & Hpos1 & Hsrc1 & Hsl1); [lia|].
  rewrite Hg1. cbn [bind].
  destruct (getbits_spec bs1 2 Hwf1) as (bs2 & Hg2 & _); [lia | lia |].
  rewrite Hg2. cbn [bind].
  rewrite bits_at_2, Hsrc1, Hpos1.
  replace (bitpos bs + 1 + 1) with (bitpos bs + 2) by lia.
  rewrite Hb1, Hb2. reflexivity.
Qed.

Lemma stored_block_is_fatal_witness :
  wf_bitstream bs_stored
  /\ bitpos bs_stored + 3 <= 8 * source_len bs_stored
  /\ stream_bit (source bs_stored) (bitpos bs_stored + 1) = 0
  /\ stream_bit (source bs_stored) (bitpos bs_stored + 2) = 0
  /\ block HuffTree init_hufftree readsym 0 bs_stored
     = Fatal "unsupported uncompressed block".
Proof.
  assert (Hwf : wf_bitstream bs_stored).
  { constructor; cbn [bs_stored curbit curword curword_val source source_len].
    - lia.
    - split; [lia | reflexivity].
    - split; [lia | reflexivity].
    - vm_compute. discriminate.
    - intros _. reflexivity. }
  assert (H3 : bitpos bs_stored + 3 <= 8 * source_len bs_stored)
    by (vm_compute; discriminate).
  assert (H1 : stream_bit (source bs_stored) (bitpos bs_stored + 1) = 0) by reflexivity.
  assert (H2 : stream_bit (source bs_stored) (bitpos bs_stored + 2) = 0) by reflexivity.
  conjs; try assumption.
  exact (stored_block_is_fatal HuffTree init_hufftree readsym 0 bs_stored Hwf H3 H1 H2).
Defined.

(** C8, counterexample: on the gzip file whose payload is the empty final
    stored block [01 00 00 ff ff], with matching NLEN and a trailer that
    declares size 0, the run does not produce the empty output: it ends in
    the fatal error, for whatever loop bound. *)
Lemma stored_block_not_decoded :
  (off <- parse_header gz_stored ;;
   bitstream_init (skipn (Z.to_nat off) gz_stored)
                  (size_t (Z.of_nat (length gz_stored) - off - 8)))
  = Ret bs_stored
  /\ main 1 gz_stored = Fatal "unsupported uncompressed block"
  /\ ~ (exists fuel, main fuel gz_stored = Ret tt).
Proof.
  conjs; try reflexivity.
  intros [fuel H]. destruct fuel as [|fuel]; vm_compute in H; discriminate H.
Qed.

(** ** Which fatal errors a run can end in *)

Lemma fatal_in_Ret {A : Type} (msgs : list string) (a : A) : fatal_in msgs (Ret a).
Proof. intros msg H. discriminate H. Qed.

Lemma fatal_in_Undef {A : Type} (msgs : list string) : fatal_in msgs (@Undef A).
Proof. intros msg H. discriminate H. Qed.

Lemma fatal_in_OutOfFuel {A : Type} (msgs : list string) :
  fatal_in msgs (@OutOfFuel A).
Proof. intros msg H. discriminate H. Qed.

Lemma fatal_in_Fatal {A : Type} (msgs : list string) (m : string) :
  In m msgs -> fatal_in msgs (@Fatal A m).
Proof. intros Hin msg H. injection H as <-. exact Hin. Qed.

Lemma fatal_in_bind {A B : Type} (msgs : list string)
      (m : outcome A) (k : A -> outcome B) :
  fatal_in msgs m -> (forall a, fatal_in msgs (k a)) -> fatal_in msgs (bind m k).
Proof.
  intros Hm Hk msg H. destruct m as [a|m'| |]; cbn [bind] in H.
  - exact (Hk a msg H).
  - injection H as <-. apply Hm. reflexivity.
  - discriminate H.
  - discriminate H.
Qed.

Create HintDb fatal.

#[local] Hint Resolve fatal_in_Ret fatal_in_Undef fatal_in_OutOfFuel : fatal.

(** One step through a monadic body. *)
Ltac fatal_step :=
  match goal with
  | |- fatal_in _ (bind _ _) => apply fatal_in_bind; [|intros ?]
  | |- fatal_in _ (match ?p with (_, _) => _ end) => destruct p
  | |- fatal_in _ (if ?c then _ else _) => destruct c
  | |- fatal_in _ (Fatal _) => apply fatal_in_Fatal; simpl; tauto
  | |- fatal_in _ (let _ := _ in _) => cbv zeta
  | |- fatal_in _ _ => solve [auto with fatal]
  end.

Ltac fatal_auto := repeat fatal_step.

Lemma fatal_in_load8 msgs m i : fatal_in msgs (load8 m i).
Proof. unfold load8. fatal_auto. Qed.

Lemma fatal_in_load msgs m i : fatal_in msgs (load m i).
Proof. unfold load. fatal_auto. Qed.

Lemma fatal_in_store msgs m i v : fatal_in msgs (store m i v).
Proof. unfold store. fatal_auto. Qed.

#[local] Hint Resolve fatal_in_load8 fatal_in_load fatal_in_store : fatal.

Lemma fatal_in_little_uint16t msgs d p : fatal_in msgs (little_uint16t d p).
Proof. unfold little_uint16t. fatal_auto. Qed.

Lemma fatal_in_little_uint32t msgs d p : fatal_in msgs (little_uint32t d p).
Proof. unfold little_uint32t. fatal_auto. Qed.

#[local] Hint Resolve fatal_in_little_uint16t fatal_in_little_uint32t : fatal.

Lemma fatal_in_bitstream_init msgs src len : fatal_in msgs (bitstream_init src len).
Proof. unfold bitstream_init. fatal_auto. Qed.

Lemma fatal_in_getbit msgs bs : fatal_in msgs (getbit bs).
Proof. unfold getbit. fatal_auto. Qed.

#[local] Hint Resolve fatal_in_bitstream_init fatal_in_getbit : fatal.

Lemma fatal_in_getbits_loop msgs k :
  forall i bits bs, fatal_in msgs (getbits_loop k i bits bs).
Proof. induction k as [|k IH]; intros; cbn [getbits_loop]; fatal_auto. Qed.

Lemma fatal_in_getbits msgs bs n : fatal_in msgs (getbits bs n).
Proof. apply fatal_in_getbits_loop. Qed.

#[local] Hint Resolve fatal_in_getbits : fatal.

Lemma fatal_in_fill_val msgs k : forall j v a, fatal_in msgs (fill_val k j v a).
Proof. induction k as [|k IH]; intros; cbn [fill_val]; fatal_auto. Qed.

Lemma fatal_in_fill_prev msgs k : forall j i a, fatal_in msgs (fill_prev k j i a).
Proof. induction k as [|k IH]; intros; cbn [fill_prev]; fatal_auto. Qed.

Lemma fatal_in_read_pretree_lengths msgs k :
  forall i pl bs, fatal_in msgs (read_pretree_lengths k i pl bs).
Proof. induction k as [|k IH]; intros; cbn [read_pretree_lengths]; fatal_auto. Qed.

Lemma fatal_in_zero_pretree_lengths msgs k :
  forall i pl, fatal_in msgs (zero_pretree_lengths k i pl).
Proof. induction k as [|k IH]; intros; cbn [zero_pretree_lengths]; fatal_auto. Qed.

#[local] Hint Resolve fatal_in_fill_val fatal_in_fill_prev
  fatal_in_read_pretree_lengths fatal_in_zero_pretree_lengths : fatal.

Lemma fatal_in_fixed_lengths msgs a : fatal_in msgs (fixed_lengths a).
Proof. unfold fixed_lengths. fatal_auto. Qed.

Lemma fatal_in_strlen msgs gz off : fatal_in msgs (strlen gz off).
Proof.
  unfold strlen. generalize (skipn (Z.to_nat off) gz) as s.
  induction s as [|b t IH]; cbn [strlen_from]; fatal_auto.
Qed.

#[local] Hint Resolve fatal_in_fixed_lengths fatal_in_strlen : fatal.

Lemma fatal_in_parse_header gz : fatal_in main_fatal_messages (parse_header gz).
Proof.
  unfold parse_header, header_fixed, skip_extra, skip_string, skip_hcrc,
    main_fatal_messages.
  fatal_auto.
Qed.

Section EngineFatal.

Variable tree : Type.
Variable build : list Z -> Z -> outcome tree.
Variable sym : tree -> Bitstream -> outcome (Z * Bitstream).

Variable msgs : list string.
Hypothesis build_fatal : forall l n, fatal_in msgs (build l n).
Hypothesis sym_fatal : forall t bs, fatal_in msgs (sym t bs).
Hypothesis block_msgs :
  In "invalid block"%string msgs /\ In "unsupported uncompressed block"%string msgs.

Local Hint Resolve build_fatal sym_fatal : fatal.

Lemma fatal_in_pretree_loop fuel :
  forall pretree n i lengths bs,
    fatal_in msgs (pretree_loop tree sym fuel pretree n i lengths bs).
Proof.
  induction fuel as [|fuel IH]; intros; cbn [pretree_loop]; fatal_auto.
Qed.

Local Hint Resolve fatal_in_pretree_loop : fatal.

Lemma fatal_in_dynamic_lengths bs lengths :
  fatal_in msgs (dynamic_lengths tree build sym bs lengths).
Proof.
  unfold dynamic_lengths, read_pretree, deflate_decode_pretree_with. fatal_auto.
Qed.

Lemma fatal_in_symbols_loop fuel :
  forall lt dt bs, fatal_in msgs (symbols_loop tree sym fuel lt dt bs).
Proof.
  induction fuel as [|fuel IH]; intros; cbn [symbols_loop]; fatal_auto.
Qed.

Local Hint Resolve fatal_in_dynamic_lengths fatal_in_symbols_loop : fatal.

Lemma fatal_in_block_trees bs : fatal_in msgs (block_trees tree build sym bs).
Proof.
  destruct block_msgs as [Hm1 Hm2].
  unfold block_trees.
  repeat match goal with
         | |- fatal_in _ (Fatal _) => apply fatal_in_Fatal; assumption
         | _ => fatal_step
         end.
Qed.

Local Hint Resolve fatal_in_block_trees : fatal.

Lemma fatal_in_block fuel bs : fatal_in msgs (block tree build sym fuel bs).
Proof. unfold block. fatal_auto. Qed.

Local Hint Resolve fatal_in_block : fatal.

Lemma fatal_in_blocks_loop fuel :
  forall bs, fatal_in msgs (blocks_loop tree build sym fuel bs).
Proof.
  induction fuel as [|fuel IH]; intros; cbn [blocks_loop]; fatal_auto.
Qed.

End EngineFatal.

Lemma fatal_in_main_with
      (tree : Type) (build : list Z -> Z -> outcome tree)
      (sym : tree -> Bitstream -> outcome (Z * Bitstream)) :
  (forall l n, fatal_in main_fatal_messages (build l n)) ->
  (forall t bs, fatal_in main_fatal_messages (sym t bs)) ->
  forall fuel gz, fatal_in main_fatal_messages (main_with tree build sym fuel gz).
Proof.
  intros Hb Hs fuel gz. unfold main_with.
  apply fatal_in_bind; [apply fatal_in_parse_header|]. intros off.
  apply fatal_in_bind; [apply fatal_in_bitstream_init|]. intros bs.
  apply fatal_in_bind; [|intros; apply fatal_in_Ret].
  apply fatal_in_blocks_loop; try assumption.
  unfold main_fatal_messages. simpl. tauto.
Qed.

(** The symbol loop never ends with the placeholder [readsym]: every symbol
    is the literal 0. *)
Lemma symbols_loop_readsym (fuel : nat) :
  forall lt dt bs, symbols_loop HuffTree readsym fuel lt dt bs = OutOfFuel.
Proof.
  induction fuel as [|fuel IH]; intros; cbn [symbols_loop]; [reflexivity|].
  unfold readsym at 1. cbn [bind]. change (0 <? 256) with true. cbn [bind].
  change (0 =? 256) with false. cbv iota. apply IH.
Qed.

Lemma block_readsym (fuel : nat) (bs : Bitstream) r :
  block_trees HuffTree init_hufftree readsym bs = Ret r ->
  block HuffTree init_hufftree readsym fuel bs = OutOfFuel.
Proof.
  intros H. unfold block. rewrite H. cbn [bind].
  destruct r as [[[l lt] dt] bs3]. rewrite symbols_loop_readsym. reflexivity.
Qed.

Lemma main_with_from (tree : Type) (build : list Z -> Z -> outcome tree)
      (sym : tree -> Bitstream -> outcome (Z * Bitstream))
      (fuel : nat) (gz : list byte) (off : Z) (bs : Bitstream) :
  parse_header gz = Ret off ->
  bitstream_init (skipn (Z.to_nat off) gz)
                 (size_t (Z.of_nat (length gz) - off - 8)) = Ret bs ->
  main_with tree build sym fuel gz
  = (_ <- blocks_loop tree build sym fuel bs ;; Ret tt).
Proof.
  intros H1 H2. unfold main_with. rewrite H1. cbn [bind]. rewrite H2. reflexivity.
Qed.

(** ** The symbol loop never ends normally

    The test [code != 256] comes after [code -= 257]: symbol 256 reads
    [base_lengths[-1]], and every other symbol leaves [code] different from
    256 or indexes outside the tables. *)

Lemma load_in_range (m : list Z) (i v : Z) :
  load m i = Ret v -> 0 <= i < Z.of_nat (length m).
Proof.
  unfold load, in_range. intros H.
  destruct (Z.leb_spec 0 i); destruct (Z.ltb_spec i (Z.of_nat (length m)));
    cbn [andb] in H; try discriminate H. lia.
Qed.

Lemma symbols_loop_never_returns
      (tree : Type) (sym : tree -> Bitstream -> outcome (Z * Bitstream))
      (fuel : nat) :
  forall (littree disttree : tree) (bs r : Bitstream),
    symbols_loop tree sym fuel littree disttree bs <> Ret r.
Proof.
  induction fuel as [|fuel IH]; intros lt dt bs r; cbn [symbols_loop]; [discriminate|].
  destruct (sym lt bs) as [[code bs1]|m| |]; cbn [bind]; try discriminate.
  destruct (Z.ltb_spec code 256) as [Hlit|Hlen]; cbn [bind].
  - destruct (Z.eqb_spec code 256); [lia|]. apply IH.
  - destruct (load base_lengths (code - 257)) as [base|m| |] eqn:Hb;
      cbn [bind]; try discriminate.
    apply load_in_range in Hb. change (length base_lengths) with 29%nat in Hb.
    destruct (load extra_len_bits (code - 257)) as [extra|m| |];
      cbn [bind]; try discriminate.
    destruct (getbits bs1 extra) as [[x bs2]|m| |]; cbn [bind]; try discriminate.
    destruct (sym dt bs2) as [[dist bs3]|m| |]; cbn [bind]; try discriminate.
    destruct (load base_dists dist) as [dbase|m| |]; cbn [bind]; try discriminate.
    destruct (load extra_dist_bits dist) as [dextra|m| |]; cbn [bind]; try discriminate.
    destruct (getbits bs3 dextra) as [[y bs4]|m| |]; cbn [bind]; try discriminate.
    destruct (Z.eqb_spec (code - 257) 256); [lia|]. apply IH.
Qed.

Lemma main_with_never_returns
      (tree : Type) (build : list Z -> Z -> outcome tree)
      (sym : tree -> Bitstream -> outcome (Z * Bitstream))
      (fuel : nat) (gz : list byte) :
  main_with tree build sym fuel gz <> Ret tt.
Proof.
  assert (Hblock : forall f bs r, block tree build sym f bs <> Ret r).
  { intros f bs r. unfold block.
    destruct (block_trees tree build sym bs) as [[[[l lt] dt] bs3]|m| |];
      cbn [bind]; try discriminate.
    destruct (symbols_loop tree sym f lt dt bs3) as [bs4|m| |] eqn:Hs;
      cbn [bind]; try discriminate.
    exfalso. exact (symbols_loop_never_returns tree sym f lt dt bs3 bs4 Hs). }
  assert (Hloop : forall bs r, blocks_loop tree build sym fuel bs <> Ret r).
  { destruct fuel as [|f]; intros bs r; cbn [blocks_loop]; [discriminate|].
    destruct (block tree build sym f bs) as [[l bs1]|m| |] eqn:Hb;
      cbn [bind]; try discriminate.
    exfalso. exact (Hblock f bs (l, bs1) Hb). }
  unfold main_with.
  destruct (parse_header gz) as [off|m| |]; cbn [bind]; try discriminate.
  destruct (bitstream_init _ _) as [bs|m| |]; cbn [bind]; try discriminate.
  destruct (blocks_loop tree build sym fuel bs) as [bs1|m| |] eqn:Hl;
    cbn [bind]; try discriminate.
  exfalso. exact (Hloop bs bs1 Hl).
Qed.

(** In the program as it is, a run that gets through the header and the
    head of its first block stays in the symbol loop of that block. *)
Lemma main_readsym_from (gz : list byte) (off : Z) (bs : Bitstream)
      (r : Z * HuffTree * HuffTree * Bitstream) :
  parse_header gz = Ret off ->
  bitstream_init (skipn (Z.to_nat off) gz)
                 (size_t (Z.of_nat (length gz) - off - 8)) = Ret bs ->
  block_trees HuffTree init_hufftree readsym bs = Ret r ->
  forall fuel, main fuel gz = OutOfFuel.
Proof.
  intros Hp Hi Hb fuel. unfold main.
  rewrite (main_with_from _ _ _ fuel gz off bs Hp Hi).
  destruct fuel as [|fuel]; [reflexivity|].
  cbn [blocks_loop]. rewrite (block_readsym fuel bs r Hb). reflexivity.
Qed.

Lemma fatal_in_main (fuel : nat) (gz : list byte) :
  fatal_in main_fatal_messages (main fuel gz).
Proof.
  apply fatal_in_main_with.
  - intros. unfold init_hufftree. apply fatal_in_Ret.
  - intros. unfold readsym. apply fatal_in_Ret.
Qed.

Lemma not_fatal_in_nil {A : Type} (o : outcome A) :
  (forall msg, o <> Fatal msg) <-> fatal_in [] o.
Proof.
  unfold fatal_in. split.
  - intros H msg E. exact (H msg E).
  - intros H msg E. exact (H msg E).
Qed.

(** ** Matches in the symbol loop *)

(** One round of the symbol loop on a length symbol, for every tree reader:
    the extra bits of the length, the distance symbol and the extra bits of
    the distance are read, and the loop goes on with the bit stream alone. *)
Lemma symbols_loop_match_round
      (tree : Type) (sym : tree -> Bitstream -> outcome (Z * Bitstream))
      (fuel : nat) (lt dt : tree) (bs bs1 bs2 bs3 bs4 : Bitstream) (s x d y : Z) :
  sym lt bs = Ret (s, bs1) -> 257 <= s <= 285 ->
  getbits bs1 (nth (Z.to_nat (s - 257)) extra_len_bits 0) = Ret (x, bs2) ->
  sym dt bs2 = Ret (d, bs3) -> 0 <= d <= 29 ->
  getbits bs3 (nth (Z.to_nat d) extra_dist_bits 0) = Ret (y, bs4) ->
  symbols_loop tree sym (S fuel) lt dt bs = symbols_loop tree sym fuel lt dt bs4.
Proof.
  intros Hs Hr Hx Hd Hdr Hy. cbn [symbols_loop]. rewrite Hs. cbn [bind].
  destruct (Z.ltb_spec s 256); [lia|]. cbv zeta.
  unfold load.
  rewrite (in_range_true base_lengths), (in_range_true extra_len_bits)
    by (change (length base_lengths) with 29%nat;
        change (length extra_len_bits) with 29%nat; lia).
  cbn [bind]. rewrite Hx. cbn [bind]. rewrite Hd. cbn [bind].
  rewrite (in_range_true base_dists), (in_range_true extra_dist_bits)
    by (change (length base_dists) with 30%nat;
        change (length extra_dist_bits) with 30%nat; lia).
  cbn [bind]. rewrite Hy. cbn [bind].
  destruct (Z.eqb_spec (s - 257) 256); [lia|]. reflexivity.
Qed.

(** C2, on the code: the program has no output window.  On the gzip file
    of "AAAAAA" (literal 'A', then a match of length 5 at distance 1),
    where [copy_match] as specified turns "A" into "AAAAAA", the run
    produces nothing and stays in the symbol loop, whatever the loop bound.
    For every tree reader, a round of the symbol loop on a length symbol
    reads the extra bits and the distance symbol and goes on with the bit
    stream alone: the match length and the distance are dropped, whatever
    they are.  The symbol loop raises no error of its own, so no
    InvalidDistance. *)
Theorem copy_match_not_implemented :
  OutputWindow.copy_match (OutputWindow.append_literal [] "A"%byte) 1 5
  = Ret ["A"; "A"; "A"; "A"; "A"; "A"]%byte
  /\ (off <- parse_header gz_a_match ;;
      bitstream_init (skipn (Z.to_nat off) gz_a_match)
                     (size_t (Z.of_nat (length gz_a_match) - off - 8)))
     = Ret bs_a_match
  /\ block_trees HuffTree init_hufftree readsym bs_a_match
     = Ret (1, mkHuffTree, mkHuffTree, bs_a_match_3)
  /\ (forall fuel, main fuel gz_a_match = OutOfFuel)
  /\ (forall (tree : Type) (sym : tree -> Bitstream -> outcome (Z * Bitstream))
             (fuel : nat) (lt dt : tree) (bs bs1 bs2 bs3 bs4 : Bitstream)
             (s x d y : Z),
        sym lt bs = Ret (s, bs1) -> 257 <= s <= 285 ->
        getbits bs1 (nth (Z.to_nat (s - 257)) extra_len_bits 0) = Ret (x, bs2) ->
        sym dt bs2 = Ret (d, bs3) -> 0 <= d <= 29 ->
        getbits bs3 (nth (Z.to_nat d) extra_dist_bits 0) = Ret (y, bs4) ->
        symbols_loop tree sym (S fuel) lt dt bs
        = symbols_loop tree sym fuel lt dt bs4)
  /\ (forall (tree : Type) (sym : tree -> Bitstream -> outcome (Z * Bitstream)),
        (forall t bs msg, sym t bs <> Fatal msg) ->
        forall fuel lt dt bs msg,
          symbols_loop tree sym fuel lt dt bs <> Fatal msg).
Proof.
  conjs.
  - reflexivity.
  - reflexivity.
  - vm_compute. reflexivity.
  - apply main_readsym_from
      with (off := 10) (bs := bs_a_match) (r := (1, mkHuffTree, mkHuffTree, bs_a_match_3));
      [reflexivity | reflexivity | vm_compute; reflexivity].
  - intros. eapply symbols_loop_match_round; eassumption.
  - intros tree sym Hsym fuel lt dt bs. apply not_fatal_in_nil.
    apply fatal_in_symbols_loop. intros t bs0. apply not_fatal_in_nil. apply Hsym.
Qed.

(** The round of [symbols_loop_match_round] is the second round on the
    payload of [gz_a_match] once symbols are decoded: with the decoder of
    the specification in place of [readsym], and the trees of the fixed
    code, the literal 65 and the match are passed without any output or
    check, and the third symbol, 256, indexes the length table at -1. *)
Example match_round_with_a_decoder :
  (lt <- Canonical.build fixed_literal_lengths 288 ;;
   dt <- Canonical.build fixed_distance_lengths 30 ;;
   '(s1, bs1) <- Canonical.decode lt bs_a_match_3 ;;
   '(s2, bs2) <- Canonical.decode lt bs1 ;;
   '(d, bs3) <- Canonical.decode dt bs2 ;;
   '(s3, _) <- Canonical.decode lt bs3 ;;
   Ret (s1, s2, nth (Z.to_nat (s2 - 257)) base_lengths 0,
        d, nth (Z.to_nat d) base_dists 0, s3))
  = Ret (65, 259, 5, 0, 1, 256)
  /\ (lt <- Canonical.build fixed_literal_lengths 288 ;;
      dt <- Canonical.build fixed_distance_lengths 30 ;;
      symbols_loop Canonical.Tree Canonical.decode 2 lt dt bs_a_match_3) = OutOfFuel
  /\ (lt <- Canonical.build fixed_literal_lengths 288 ;;
      dt <- Canonical.build fixed_distance_lengths 30 ;;
      symbols_loop Canonical.Tree Canonical.decode 3 lt dt bs_a_match_3) = Undef.
Proof. conjs; vm_compute; reflexivity. Qed.

(** ** The trailer *)

(** C9, on the code: [main] has no trailer check.  On the gzip file of the
    empty input whose size field declares 100, the bit reader is given the
    two bytes of the payload (the length leaves the eight bytes of the
    trailer out), and the run stays in the symbol loop of its block,
    whatever the loop bound and whatever the four bytes of the size field
    are.  No run of [main] ends in a fatal error other than those of its
    seven [fatal()] calls, none of which is about the trailer, and no run
    returns. *)
Theorem trailer_never_checked :
  little_uint32t gz_empty_100 (Z.of_nat (length gz_empty_100) - 4) = Ret 100
  /\ (forall b0 b1 b2 b3 : byte,
        (off <- parse_header (gz_empty [b0; b1; b2; b3]) ;;
         bitstream_init (skipn (Z.to_nat off) (gz_empty [b0; b1; b2; b3]))
           (size_t (Z.of_nat (length (gz_empty [b0; b1; b2; b3])) - off - 8)))
        = Ret (mkBitstream 0 0 0x0003 (skipn 10 (gz_empty [b0; b1; b2; b3])) 2))
  /\ (forall (b0 b1 b2 b3 : byte) (fuel : nat),
        main fuel (gz_empty [b0; b1; b2; b3]) = OutOfFuel)
  /\ (forall (fuel : nat) (argc : Z) (file : option (list byte)) (msg : string),
        main_argv fuel argc file = Fatal msg -> In msg main_argv_fatal_messages)
  /\ (forall (fuel : nat) (argc : Z) (file : option (list byte)),
        main_argv fuel argc file <> Ret tt).
Proof.
  conjs.
  - reflexivity.
  - intros. reflexivity.
  - intros b0 b1 b2 b3.
    apply main_readsym_from
      with (off := 10)
           (bs := mkBitstream 0 0 0x0003 (skipn 10 (gz_empty [b0; b1; b2; b3])) 2)
           (r := (1, mkHuffTree, mkHuffTree,
                  mkBitstream 3 0 0x0003 (skipn 10 (gz_empty [b0; b1; b2; b3])) 2));
      [reflexivity | reflexivity | vm_compute; reflexivity].
  - intros fuel argc file msg. unfold main_argv, main_argv_fatal_messages.
    destruct (argc <=? 1).
    + intros H. injection H as <-. simpl. tauto.
    + destruct file as [gz|].
      * intros H. apply in_or_app. right. exact (fatal_in_main fuel gz msg H).
      * intros H. injection H as <-. simpl. tauto.
  - intros fuel argc file. unfold main_argv.
    destruct (argc <=? 1); [discriminate|].
    destruct file as [gz|]; [|discriminate].
    apply main_with_never_returns.
Qed.

(** ** The extra field of the header *)

Lemma lor_high_low (m lo k : Z) :
  0 <= k -> 0 <= lo < 2 ^ k -> Z.lor (m * 2 ^ k) lo = m * 2 ^ k + lo.
Proof.
  intros Hk Hlo.
  assert (Hd : Z.land (m * 2 ^ k) lo = 0).
  { apply Z.bits_inj'. intros n Hn.
    rewrite Z.land_spec, Z.mul_pow2_bits, Z.bits_0 by lia.
    destruct (Z.ltb_spec n k).
    - rewrite (Z.testbit_neg_r m) by lia. reflexivity.
    - replace (Z.testbit lo n) with false; [apply andb_false_r|].
      symmetry. apply Z.testbit_false; [lia|].
      rewrite Z.div_small; [reflexivity|].
      assert (2 ^ k <= 2 ^ n) by (apply Z.pow_le_mono_r; lia). lia. }
  rewrite <- Z.lxor_lor by exact Hd.
  symmetry. apply Z.add_nocarry_lxor. exact Hd.
Qed.

Lemma little_uint32t_in (m : list byte) (p : Z) :
  0 <= p -> p + 3 < Z.of_nat (length m) ->
  little_uint32t m p = Ret (le32_at m p).
Proof.
  intros H0 H3. unfold little_uint32t.
  rewrite !load8_in by lia. cbn [bind]. f_equal.
  unfold le32_at, byte_at.
  pose proof (byte_val_range (nth (Z.to_nat p) m x00)) as R0.
  pose proof (byte_val_range (nth (Z.to_nat (p + 1)) m x00)) as R1.
  pose proof (byte_val_range (nth (Z.to_nat (p + 2)) m x00)) as R2.
  pose proof (byte_val_range (nth (Z.to_nat (p + 3)) m x00)) as R3.
  set (d0 := byte_val (nth (Z.to_nat p) m x00)) in *.
  set (d1 := byte_val (nth (Z.to_nat (p + 1)) m x00)) in *.
  set (d2 := byte_val (nth (Z.to_nat (p + 2)) m x00)) in *.
  set (d3 := byte_val (nth (Z.to_nat (p + 3)) m x00)) in *.
  rewrite !Z.shiftl_mul_pow2 by lia.
  assert (E1 : Z.lor (d3 * 2 ^ 24) (d2 * 2 ^ 16) = d3 * 2 ^ 24 + d2 * 2 ^ 16).
  { apply lor_high_low; lia. }
  rewrite E1.
  replace (d3 * 2 ^ 24 + d2 * 2 ^ 16) with ((d3 * 2 ^ 8 + d2) * 2 ^ 16) by lia.
  rewrite lor_high_low by lia.
  replace ((d3 * 2 ^ 8 + d2) * 2 ^ 16 + d1 * 2 ^ 8)
    with ((d3 * 2 ^ 16 + d2 * 2 ^ 8 + d1) * 2 ^ 8) by lia.
  rewrite lor_high_low by lia.
  unfold uint32_t. rewrite Z.mod_small by lia. lia.
Qed.

Lemma le32_at_range (m : list byte) (p : Z) : 0 <= le32_at m p < 2 ^ 32.
Proof.
  unfold le32_at, byte_at.
  pose proof (byte_val_range (nth (Z.to_nat p) m x00)).
  pose proof (byte_val_range (nth (Z.to_nat (p + 1)) m x00)).
  pose proof (byte_val_range (nth (Z.to_nat (p + 2)) m x00)).
  pose proof (byte_val_range (nth (Z.to_nat (p + 3)) m x00)).
  lia.
Qed.

(** C10, on the code: with mask 4 of the flag byte set and the four bytes
    present, bytes 10..13 are read as a little-endian 32-bit extra size and
    the name, comment and header-CRC fields are looked for from offset
    [10 + (4 + size) mod 2^32] on: the sum [4 + size] is formed in
    [uint32_t].  The offset is 10 plus 4 plus the size when
    [size + 4 < 2^32], and wraps otherwise. *)
Theorem extra_field_offset (gz : list byte) (flags : Z) :
  header_fixed gz = Ret flags ->
  Z.land flags 4 <> 0 ->
  14 <= Z.of_nat (length gz) ->
  little_uint32t gz 10 = Ret (le32_at gz 10)
  /\ skip_extra gz flags 10 = Ret (10 + (4 + le32_at gz 10) mod 2 ^ 32)
  /\ parse_header gz
     = (off2 <- skip_string gz flags 8 (10 + (4 + le32_at gz 10) mod 2 ^ 32) ;;
        off3 <- skip_string gz flags 16 off2 ;;
        skip_hcrc gz flags off3)
  /\ (le32_at gz 10 + 4 < 2 ^ 32 ->
      skip_extra gz flags 10 = Ret (10 + (4 + le32_at gz 10))).
Proof.
  intros Hfix Hflag Hlen.
  assert (Hle : little_uint32t gz 10 = Ret (le32_at gz 10))
    by (apply little_uint32t_in; lia).
  assert (Hskip : skip_extra gz flags 10 = Ret (10 + (4 + le32_at gz 10) mod 2 ^ 32)).
  { unfold skip_extra.
    destruct (Z.eqb_spec (Z.land flags 4) 0) as [E|_]; [contradiction|].
    rewrite Hle. cbn [bind]. f_equal. unfold size_t, uint32_t.
    pose proof (Z.mod_pos_bound (4 + le32_at gz 10) (2 ^ 32) eq_refl).
    apply Z.mod_small. lia. }
  conjs.
  - exact Hle.
  - exact Hskip.
  - unfold parse_header. rewrite Hfix. cbn [bind]. rewrite Hskip. reflexivity.
  - intros Hsmall. rewrite Hskip. pose proof (le32_at_range gz 10).
    rewrite Z.mod_small by lia. reflexivity.
Qed.

Lemma extra_field_offset_witness :
  header_fixed gz_extra_wrap = Ret 4
  /\ Z.land 4 4 <> 0
  /\ 14 <= Z.of_nat (length gz_extra_wrap)
  /\ little_uint32t gz_extra_wrap 10 = Ret (le32_at gz_extra_wrap 10)
  /\ skip_extra gz_extra_wrap 4 10
     = Ret (10 + (4 + le32_at gz_extra_wrap 10) mod 2 ^ 32)
  /\ parse_header gz_extra_wrap
     = (off2 <- skip_string gz_extra_wrap 4 8
                  (10 + (4 + le32_at gz_extra_wrap 10) mod 2 ^ 32) ;;
        off3 <- skip_string gz_extra_wrap 4 16 off2 ;;
        skip_hcrc gz_extra_wrap 4 off3)
  /\ (le32_at gz_extra_wrap 10 + 4 < 2 ^ 32 ->
      skip_extra gz_extra_wrap 4 10 = Ret (10 + (4 + le32_at gz_extra_wrap 10))).
Proof.
  assert (H1 : header_fixed gz_extra_wrap = Ret 4) by reflexivity.
  assert (H2 : Z.land 4 4 <> 0) by (vm_compute; discriminate).
  assert (H3 : 14 <= Z.of_nat (length gz_extra_wrap)) by (vm_compute; discriminate).
  split; [exact H1|]. split; [exact H2|]. split; [exact H3|].
  exact (extra_field_offset gz_extra_wrap 4 H1 H2 H3).
Defined.

(** The extra size [fc ff ff ff] is 4294967292; the offset stays at 10
    instead of moving on by 4 + 4294967292.  With the size 2 it moves to
    16. *)
Example extra_field_offset_values :
  le32_at gz_extra_wrap 10 = 4294967292
  /\ skip_extra gz_extra_wrap 4 10 = Ret 10
  /\ parse_header gz_extra_wrap = Ret 10
  /\ le32_at gz_extra_2 10 = 2
  /\ parse_header gz_extra_2 = Ret 16.
Proof. conjs; reflexivity. Qed.

(** ** Arrays *)

Lemma length_upd (m : list Z) (n : nat) (v : Z) : length (upd m n v) = length m.
Proof.
  revert n. induction m as [|h t IH]; intros [|n]; cbn [upd length]; auto.
Qed.

Lemma nth_upd_eq (m : list Z) (n : nat) (v d : Z) :
  (n < length m)%nat -> nth n (upd m n v) d = v.
Proof.
  revert n. induction m as [|h t IH]; intros [|n] H; cbn [upd nth length] in *;
    try lia; auto. apply IH. lia.
Qed.

Lemma nth_upd_neq (m : list Z) (n n' : nat) (v d : Z) :
  n <> n' -> nth n' (upd m n v) d = nth n' m d.
Proof.
  revert n n'. induction m as [|h t IH]; intros [|n] [|n'] H; cbn [upd nth];
    try reflexivity; try contradiction. apply IH. lia.
Qed.

(** ** The Huffman placeholders *)

(** C1, on the code: [readsym] reads no bit and returns 0 for every tree and
    every bit stream.  For the code lengths [1; 1] and the stream [01 00]
    the canonical construction gives symbol 1 the code 1, and a decoder as
    specified returns symbol 1 after one bit; [readsym] returns 0 and leaves
    the cursor where it is.  For the lengths [2; 2; 2] and the stream
    [ff ff] no code matches and a decoder as specified fails with
    InvalidHuffmanCode after 15 bits; [readsym] returns 0. *)
Theorem readsym_is_placeholder :
  (forall ht bs, readsym ht bs = Ret (0, bs))
  /\ Canonical.build [1; 1] 2 = Ret [(1, 0, 0); (1, 1, 1)]
  /\ (t <- Canonical.build [1; 1] 2 ;; Canonical.decode t bs_one) = Ret (1, bs_one_1)
  /\ (t <- init_hufftree [1; 1] 2 ;; readsym t bs_one) = Ret (0, bs_one)
  /\ (bs <- bitstream_init [xff; xff] 2 ;;
      t <- Canonical.build [2; 2; 2] 3 ;;
      Canonical.decode t bs) = Fatal "InvalidHuffmanCode"
  /\ (bs <- bitstream_init [xff; xff] 2 ;;
      t <- init_hufftree [2; 2; 2] 3 ;;
      '(s, _) <- readsym t bs ;; Ret s) = Ret 0.
Proof.
  conjs; try reflexivity.
Qed.

(** ** Repeat codes in the code-length sequence *)

(** Symbol 16 as the first symbol: the copy loop reads [lengths[-1]]. *)
Lemma repeat_16_first_reads_before_array
      (tree : Type) (sym : tree -> Bitstream -> outcome (Z * Bitstream))
      (pretree : tree) (bs bs1 bs2 : Bitstream) (x : Z)
      (lengths : list Z) (num_lengths : Z) :
  sym pretree bs = Ret (16, bs1) ->
  getbits bs1 2 = Ret (x, bs2) ->
  0 <= x -> 0 < num_lengths ->
  deflate_decode_pretree_with tree sym pretree bs lengths num_lengths = Undef.
Proof.
  intros Hs Hg Hx Hn. unfold deflate_decode_pretree_with.
  destruct (Z.to_nat num_lengths) as [|fuel] eqn:E; [lia|].
  cbn [pretree_loop].
  destruct (Z.ltb_spec 0 num_lengths); [|lia].
  rewrite Hs. cbn [bind]. change (16 <=? 15) with false. change (16 =? 16) with true.
  cbv iota. rewrite Hg. cbn [bind]. cbv zeta.
  destruct (Z.to_nat (3 + x)) as [|k] eqn:Ek; [lia|].
  cbn [fill_prev]. reflexivity.
Qed.

Lemma fill_val_in_bounds (k : nat) :
  forall (j v : Z) (a : list Z),
    0 <= j -> j + Z.of_nat k <= Z.of_nat (length a) ->
    exists a', fill_val k j v a = Ret a' /\ length a' = length a.
Proof.
  induction k as [|k IH]; intros j v a Hj Hk; cbn [fill_val].
  - exists a. split; reflexivity.
  - unfold store. rewrite in_range_true by lia. cbn [bind].
    destruct (IH (j + 1) v (upd a (Z.to_nat j) v)) as (a' & Ha & Hl).
    + lia.
    + rewrite length_upd. lia.
    + exists a'. split; [exact Ha|]. rewrite Hl. apply length_upd.
Qed.

(** A run of symbol 18 that passes the declared count inside the array: the
    loop writes the whole run and returns, with [i] beyond [num_lengths]. *)
Lemma repeat_18_overruns_count
      (tree : Type) (sym : tree -> Bitstream -> outcome (Z * Bitstream))
      (fuel : nat) (pretree : tree) (bs bs1 bs2 : Bitstream) (x i : Z)
      (lengths : list Z) (num_lengths : Z) :
  sym pretree bs = Ret (18, bs1) ->
  getbits bs1 7 = Ret (x, bs2) ->
  0 <= x -> 0 <= i < num_lengths ->
  num_lengths < i + 11 + x <= Z.of_nat (length lengths) ->
  exists l,
    pretree_loop tree sym (S fuel) pretree num_lengths i lengths bs
    = Ret (l, i + (11 + x), bs2).
Proof.
  intros Hs Hg Hx Hi Hover. cbn [pretree_loop].
  destruct (Z.ltb_spec i num_lengths); [|lia].
  rewrite Hs. cbn [bind]. change (18 <=? 15) with false. change (18 =? 16) with false.
  change (18 =? 17) with false. cbv iota. rewrite Hg. cbn [bind]. cbv zeta.
  destruct (fill_val_in_bounds (Z.to_nat (11 + x)) i 0 lengths) as (a' & Ha & Hl);
    [lia | lia |].
  rewrite Ha. cbn [bind]. exists a'.
  destruct fuel as [|fuel]; cbn [pretree_loop];
    (destruct (Z.ltb_spec (i + (11 + x)) num_lengths); [lia | reflexivity]).
Qed.

(** C6, on the code: [deflate_decode_pretree] has no error path.  In the
    block [05 00 22 01 ...] the first code-length symbol of the stream is
    16, and in the block [05 00 80 e4 ff 1f ...], which declares 258
    lengths, the stream holds symbol 18 with a run of 138 twice.  On both
    the program sets the 258 declared lengths to 0 without reading a bit
    and returns, the head of the block is completed and the run goes on
    into the symbol loop, which it never leaves: no error is reported.
    For every tree reader that raises no error itself,
    [deflate_decode_pretree] raises none, whatever the symbols are. *)
Theorem repeat_runs_unchecked :
  read_pretree bs_repeat_first_3
  = Ret (257, 1, pretree_lengths_repeat_first, bs_repeat_first_29)
  /\ Canonical.build pretree_lengths_repeat_first 19 = Ret pretree_repeat_first
  /\ Canonical.decode pretree_repeat_first bs_repeat_first_29
     = Ret (16, mkBitstream 14 2 0x0122 payload_repeat_first 6)
  /\ ('(s1, b1) <- Canonical.decode pretree_overrun bs_overrun_29 ;;
      '(x1, b2) <- getbits b1 7 ;;
      '(s2, b3) <- Canonical.decode pretree_overrun b2 ;;
      '(x2, _) <- getbits b3 7 ;;
      Ret (s1, 11 + x1, s2, 11 + x2)) = Ret (18, 138, 18, 138)
  /\ deflate_decode_pretree mkHuffTree bs_repeat_first_29 (repeat 5 (288 + 30)) (257 + 1)
     = Ret (repeat 0 258 ++ repeat 5 60, 258, bs_repeat_first_29)
  /\ deflate_decode_pretree mkHuffTree bs_overrun_29 (repeat 5 (288 + 30)) (257 + 1)
     = Ret (repeat 0 258 ++ repeat 5 60, 258, bs_overrun_29)
  /\ block_trees HuffTree init_hufftree readsym bs_repeat_first
     = Ret (1, mkHuffTree, mkHuffTree, bs_repeat_first_29)
  /\ block_trees HuffTree init_hufftree readsym bs_overrun
     = Ret (1, mkHuffTree, mkHuffTree, bs_overrun_29)
  /\ (forall fuel, main fuel gz_repeat_first = OutOfFuel)
  /\ (forall fuel, main fuel gz_overrun = OutOfFuel)
  /\ (forall (tree : Type) (sym : tree -> Bitstream -> outcome (Z * Bitstream)),
        (forall t bs msg, sym t bs <> Fatal msg) ->
        forall pretree bs lengths num_lengths msg,
          deflate_decode_pretree_with tree sym pretree bs lengths num_lengths
          <> Fatal msg).
Proof.
  conjs.
  - reflexivity.
  - reflexivity.
  - reflexivity.
  - vm_compute. reflexivity.
  - vm_compute. reflexivity.
  - vm_compute. reflexivity.
  - vm_compute. reflexivity.
  - vm_compute. reflexivity.
  - apply main_readsym_from
      with (off := 10) (bs := bs_repeat_first)
           (r := (1, mkHuffTree, mkHuffTree, bs_repeat_first_29));
      [reflexivity | reflexivity | vm_compute; reflexivity].
  - apply main_readsym_from
      with (off := 10) (bs := bs_overrun)
           (r := (1, mkHuffTree, mkHuffTree, bs_overrun_29));
      [reflexivity | reflexivity | vm_compute; reflexivity].
  - intros tree sym Hsym pretree bs lengths n. apply not_fatal_in_nil.
    unfold deflate_decode_pretree_with. apply fatal_in_pretree_loop.
    intros t bs0. apply not_fatal_in_nil. apply Hsym.
Qed.

(** ** The tree description of a dynamic block *)

Lemma pretree_order_range (j : Z) : 0 <= j < 19 -> 0 <= order j < 19.
Proof.
  intros Hj. unfold order.
  assert (H : Forall (fun x => 0 <= x < 19) pretree_order)
    by (repeat constructor; lia).
  rewrite Forall_forall in H. apply H. apply nth_In.
  change (length pretree_order) with 19%nat. lia.
Qed.

Lemma pretree_order_nodup : NoDup pretree_order.
Proof.
  unfold pretree_order.
  repeat (constructor; [simpl; intuition discriminate|]). constructor.
Qed.

Lemma pretree_order_inj (j j' : Z) :
  0 <= j < 19 -> 0 <= j' < 19 -> order j = order j' -> j = j'.
Proof.
  intros Hj Hj' H. unfold order in H.
  pose proof pretree_order_nodup as Hnd.
  rewrite (NoDup_nth pretree_order 0) in Hnd.
  assert (Z.to_nat j = Z.to_nat j').
  { apply Hnd; try exact H; change (length pretree_order) with 19%nat; lia. }
  lia.
Qed.

Lemma load_pretree_order (j : Z) :
  0 <= j < 19 -> load pretree_order j = Ret (order j).
Proof.
  intros Hj. unfold load. rewrite in_range_true; [reflexivity|].
  change (length pretree_order) with 19%nat. lia.
Qed.

Lemma bits_at_range (src : list byte) (p n : Z) :
  0 <= n -> 0 <= bits_at src p n < 2 ^ n.
Proof.
  intros Hn. unfold bits_at.
  pose proof (sum_shifted_range (fun i => stream_bit src (p + i)) (Z.to_nat n)
                (fun i => stream_bit_range src (p + i))) as H.
  rewrite Z2Nat.id in H by lia. exact H.
Qed.

Lemma read_pretree_lengths_spec (src : list byte) (sl : Z) (k : nat) :
  forall (i : Z) (pl : list Z) (bs : Bitstream),
    wf_bitstream bs -> source bs = src -> source_len bs = sl ->
    0 <= i -> i + Z.of_nat k <= 19 -> length pl = 19%nat ->
    bitpos bs + 3 * Z.of_nat k <= 8 * sl ->
    exists pl' bs',
      read_pretree_lengths k i pl bs = Ret (pl', bs')
      /\ wf_bitstream bs'
      /\ bitpos bs' = bitpos bs + 3 * Z.of_nat k
      /\ source bs' = src /\ source_len bs' = sl
      /\ length pl' = 19%nat
      /\ (forall j, i <= j < i + Z.of_nat k ->
            nth (Z.to_nat (order j)) pl' 0 = bits_at src (bitpos bs + 3 * (j - i)) 3)
      /\ (forall j, 0 <= j < i \/ i + Z.of_nat k <= j < 19 ->
            nth (Z.to_nat (order j)) pl' 0 = nth (Z.to_nat (order j)) pl 0).
Proof.
  induction k as [|k IH]; intros i pl bs Hwf Hsrc Hsl Hi Hik Hpl Hend.
  - exists pl, bs. cbn [read_pretree_lengths].
    conjs; try assumption; try reflexivity; lia.
  - cbn [read_pretree_lengths].
    rewrite load_pretree_order by lia. cbn [bind].
    destruct (getbits_spec bs 3 Hwf) as (bs1 & Hg & Hwf1 & Hpos1 & Hsrc1 & Hsl1);
      [lia | lia |].
    rewrite Hg. cbn [bind].
    pose proof (pretree_order_range i ltac:(lia)) as Hoi.
    unfold store. rewrite in_range_true by lia. cbn [bind].
    destruct (IH (i + 1) (upd pl (Z.to_nat (order i)) (bits_at (source bs) (bitpos bs) 3)) bs1)
      as (pl' & bs' & Hr & Hwf' & Hpos' & Hsrc' & Hsl' & Hlen' & Hset & Hkeep);
      try assumption; try congruence; try lia.
    { rewrite length_upd. exact Hpl. }
    exists pl', bs'. conjs; try assumption; try lia.
    + intros j Hj. destruct (Z.eq_dec j i) as [->|Hne].
      * rewrite Hkeep by lia. rewrite nth_upd_eq by lia.
        rewrite Hsrc. f_equal. lia.
      * rewrite Hset by lia. f_equal. lia.
    + intros j Hj. rewrite Hkeep by lia. apply nth_upd_neq.
      intros E. pose proof (pretree_order_range j ltac:(lia)) as Hoj.
      assert (order i = order j) by lia.
      apply pretree_order_inj in H; lia.
Qed.

Lemma zero_pretree_lengths_spec (k : nat) :
  forall (i : Z) (pl : list Z),
    0 <= i -> i + Z.of_nat k <= 19 -> length pl = 19%nat ->
    exists pl',
      zero_pretree_lengths k i pl = Ret pl'
      /\ length pl' = 19%nat
      /\ (forall j, i <= j < i + Z.of_nat k -> nth (Z.to_nat (order j)) pl' 0 = 0)
      /\ (forall j, 0 <= j < i \/ i + Z.of_nat k <= j < 19 ->
            nth (Z.to_nat (order j)) pl' 0 = nth (Z.to_nat (order j)) pl 0).
Proof.
  induction k as [|k IH]; intros i pl Hi Hik Hpl.
  - exists pl. cbn [zero_pretree_lengths].
    conjs; try assumption; try reflexivity. intros j Hj. lia.
  - cbn [zero_pretree_lengths].
    rewrite load_pretree_order by lia. cbn [bind].
    pose proof (pretree_order_range i ltac:(lia)) as Hoi.
    unfold store. rewrite in_range_true by lia. cbn [bind].
    destruct (IH (i + 1) (upd pl (Z.to_nat (order i)) 0))
      as (pl' & Hr & Hlen' & Hset & Hkeep); try lia.
    { rewrite length_upd. exact Hpl. }
    exists pl'. conjs; try assumption.
    + intros j Hj. destruct (Z.eq_dec j i) as [->|Hne].
      * rewrite Hkeep by lia. apply nth_upd_eq. lia.
      * apply Hset. lia.
    + intros j Hj. rewrite Hkeep by lia. apply nth_upd_neq.
      intros E. pose proof (pretree_order_range j ltac:(lia)) as Hoj.
      assert (order i = order j) by lia.
      apply pretree_order_inj in H; lia.
Qed.

Lemma read_pretree_spec (bs : Bitstream) :
  wf_bitstream bs ->
  bitpos bs + 14 + 3 * (bits_at (source bs) (bitpos bs + 10) 4 + 4)
  <= 8 * source_len bs ->
  exists pl bs4,
    read_pretree bs
    = Ret (bits_at (source bs) (bitpos bs) 5 + 257,
           bits_at (source bs) (bitpos bs + 5) 5 + 1, pl, bs4)
    /\ wf_bitstream bs4
    /\ bitpos bs4
       = bitpos bs + 14 + 3 * (bits_at (source bs) (bitpos bs + 10) 4 + 4)
    /\ source bs4 = source bs /\ source_len bs4 = source_len bs
    /\ length pl = 19%nat
    /\ forall k, 0 <= k < 19 ->
         nth (Z.to_nat (order k)) pl 0
         = if k <? bits_at (source bs) (bitpos bs + 10) 4 + 4
           then bits_at (source bs) (bitpos bs + 14 + 3 * k) 3
           else 0.
Proof.
  intros Hwf Hend.
  pose proof (bits_at_range (source bs) (bitpos bs + 10) 4 ltac:(lia)) as Hc.
  change (2 ^ 4) with 16 in Hc.
  set (hclen := bits_at (source bs) (bitpos bs + 10) 4) in *.
  unfold read_pretree.
  destruct (getbits_spec bs 5 Hwf) as (bs1 & Hg1 & Hwf1 & Hpos1 & Hsrc1 & Hsl1);
    [lia | lia |].
  rewrite Hg1. cbn [bind]. cbv zeta.
  destruct (getbits_spec bs1 5 Hwf1) as (bs2 & Hg2 & Hwf2 & Hpos2 & Hsrc2 & Hsl2);
    [lia | lia |].
  rewrite Hg2. cbn [bind].
  destruct (getbits_spec bs2 4 Hwf2) as (bs3 & Hg3 & Hwf3 & Hpos3 & Hsrc3 & Hsl3);
    [lia | lia |].
  rewrite Hg3. cbn [bind].
  rewrite Hsrc1, Hpos1, Hsrc2, Hsrc1, Hpos2, Hpos1.
  replace (bitpos bs + 5 + 5) with (bitpos bs + 10) by lia. fold hclen.
  destruct (read_pretree_lengths_spec (source bs) (source_len bs)
              (Z.to_nat (hclen + 4)) 0 (repeat 0 19) bs3)
    as (pl1 & bs4 & Hr & Hwf4 & Hpos4 & Hsrc4 & Hsl4 & Hlen1 & Hset1 & Hkeep1);
    try assumption; try congruence; try lia.
  { apply repeat_length. }
  rewrite Hr. cbn [bind].
  destruct (zero_pretree_lengths_spec (Z.to_nat (19 - (hclen + 4))) (hclen + 4) pl1)
    as (pl2 & Hz & Hlen2 & Hset2 & Hkeep2); try assumption; try lia.
  rewrite Hz. cbn [bind].
  exists pl2, bs4. conjs; try assumption; try reflexivity; try lia.
  intros k Hk. destruct (Z.ltb_spec k (hclen + 4)).
  - rewrite Hkeep2 by lia. rewrite Hset1 by lia. f_equal. lia.
  - apply Hset2. lia.
Qed.

(** C5 (as the code has it): in a block whose type bits are 10 the five
    bits after the block header are HLIT, the next five HDIST, the next four
    HCLEN; then HCLEN + 4 three-bit lengths are read and stored at the
    indices [pretree_order[0..HCLEN+3]] of the 19 code-length-code lengths,
    the other indices are set to 0; then one call decodes the lengths for
    [(HLIT + 257) + (HDIST + 1)] slots of a single array, from which the
    literal/length tree takes the first [HLIT + 257] entries and the
    distance tree the [HDIST + 1] entries behind them. *)
Theorem dynamic_block_tree_description
        (tree : Type) (build : list Z -> Z -> outcome tree)
        (sym : tree -> Bitstream -> outcome (Z * Bitstream))
        (bs : Bitstream) :
  wf_bitstream bs ->
  stream_bit (source bs) (bitpos bs + 1) = 0 ->
  stream_bit (source bs) (bitpos bs + 2) = 1 ->
  bitpos bs + 17 + 3 * (bits_at (source bs) (bitpos bs + 13) 4 + 4)
  <= 8 * source_len bs ->
  exists pl bs4,
    length pl = 19%nat
    /\ (forall k, 0 <= k < 19 ->
          nth (Z.to_nat (order k)) pl 0
          = if k <? bits_at (source bs) (bitpos bs + 13) 4 + 4
            then bits_at (source bs) (bitpos bs + 17 + 3 * k) 3
            else 0)
    /\ bitpos bs4
       = bitpos bs + 17 + 3 * (bits_at (source bs) (bitpos bs + 13) 4 + 4)
    /\ source bs4 = source bs /\ source_len bs4 = source_len bs
    /\ block_trees tree build sym bs
       = (pretree <- build pl 19 ;;
          '(l, _, bs5) <- deflate_decode_pretree_with tree sym pretree bs4
                            (repeat 0 (288 + 30))
                            ((bits_at (source bs) (bitpos bs + 3) 5 + 257)
                             + (bits_at (source bs) (bitpos bs + 8) 5 + 1)) ;;
          littree <- build l (bits_at (source bs) (bitpos bs + 3) 5 + 257) ;;
          disttree <- build (skipn (Z.to_nat (bits_at (source bs) (bitpos bs + 3) 5 + 257)) l)
                            (bits_at (source bs) (bitpos bs + 8) 5 + 1) ;;
          Ret (stream_bit (source bs) (bitpos bs), littree, disttree, bs5)).
Proof.
  intros Hwf Hb1 Hb2 Hend.
  pose proof (bits_at_range (source bs) (bitpos bs + 13) 4 ltac:(lia)) as Hc.
  destruct (getbit_spec bs Hwf) as (bs1 & Hg1 & Hwf1 & Hpos1 & Hsrc1 & Hsl1); [lia|].
  destruct (getbits_spec bs1 2 Hwf1) as (bs2 & Hg2 & Hwf2 & Hpos2 & Hsrc2 & Hsl2);
    [lia | lia |].
  rewrite bits_at_2, Hsrc1, Hpos1 in Hg2.
  replace (bitpos bs + 1 + 1) with (bitpos bs + 2) in Hg2 by lia.
  rewrite Hb1, Hb2 in Hg2. change (0 + 2 * 1) with 2 in Hg2.
  assert (Hp2 : bitpos bs2 = bitpos bs + 3) by lia.
  assert (Hs2 : source bs2 = source bs) by congruence.
  destruct (read_pretree_spec bs2 Hwf2)
    as (pl & bs4 & Hr & Hwf4 & Hpos4 & Hsrc4 & Hsl4 & Hlen & Hpl).
  { rewrite Hp2, Hs2. replace (bitpos bs + 3 + 10) with (bitpos bs + 13) by lia. lia. }
  rewrite Hp2, Hs2 in Hr, Hpos4, Hpl.
  replace (bitpos bs + 3 + 10) with (bitpos bs + 13) in * by lia.
  replace (bitpos bs + 3 + 5) with (bitpos bs + 8) in * by lia.
  exists pl, bs4. conjs; try assumption; try congruence; try lia.
  - intros k Hk. rewrite (Hpl k Hk).
    replace (bitpos bs + 3 + 14 + 3 * k) with (bitpos bs + 17 + 3 * k) by lia.
    reflexivity.
  - unfold block_trees. rewrite Hg1. cbn [bind]. rewrite Hg2. cbn [bind].
    change (2 =? 3) with false. change (2 =? 0) with false. change (2 =? 2) with true.
    cbv iota. unfold dynamic_lengths. rewrite Hr. cbn [bind].
    destruct (build pl 19) as [pretree|m| |]; cbn [bind]; try reflexivity.
    destruct (deflate_decode_pretree_with tree sym pretree bs4 _ _)
      as [[[l i] b]|m| |]; cbn [bind]; reflexivity.
Qed.

Lemma dynamic_block_tree_description_witness :
  wf_bitstream bs_repeat_first
  /\ stream_bit (source bs_repeat_first) (bitpos bs_repeat_first + 1) = 0
  /\ stream_bit (source bs_repeat_first) (bitpos bs_repeat_first + 2) = 1
  /\ bitpos bs_repeat_first + 17
     + 3 * (bits_at (source bs_repeat_first) (bitpos bs_repeat_first + 13) 4 + 4)
     <= 8 * source_len bs_repeat_first
  /\ exists pl bs4,
      length pl = 19%nat
      /\ (forall k, 0 <= k < 19 ->
            nth (Z.to_nat (order k)) pl 0
            = if k <? bits_at (source bs_repeat_first) (bitpos bs_repeat_first + 13) 4 + 4
              then bits_at (source bs_repeat_first) (bitpos bs_repeat_first + 17 + 3 * k) 3
              else 0)
      /\ bitpos bs4
         = bitpos bs_repeat_first + 17
           + 3 * (bits_at (source bs_repeat_first) (bitpos bs_repeat_first + 13) 4 + 4)
      /\ source bs4 = source bs_repeat_first
      /\ source_len bs4 = source_len bs_repeat_first
      /\ block_trees HuffTree init_hufftree readsym bs_repeat_first
         = (pretree <- init_hufftree pl 19 ;;
            '(l, _, bs5) <- deflate_decode_pretree_with HuffTree readsym pretree bs4
                              (repeat 0 (288 + 30))
                              ((bits_at (source bs_repeat_first)
                                        (bitpos bs_repeat_first + 3) 5 + 257)
                               + (bits_at (source bs_repeat_first)
                                          (bitpos bs_repeat_first + 8) 5 + 1)) ;;
            littree <- init_hufftree l
                         (bits_at (source bs_repeat_first)
                                  (bitpos bs_repeat_first + 3) 5 + 257) ;;
            disttree <- init_hufftree
                          (skipn (Z.to_nat (bits_at (source bs_repeat_first)
                                              (bitpos bs_repeat_first + 3) 5 + 257)) l)
                          (bits_at (source bs_repeat_first)
                                   (bitpos bs_repeat_first + 8) 5 + 1) ;;
            Ret (stream_bit (source bs_repeat_first) (bitpos bs_repeat_first),
                 littree, disttree, bs5)).
Proof.
  assert (Hwf : wf_bitstream bs_repeat_first).
  { constructor; cbn [bs_repeat_first curbit curword curword_val source source_len].
    - lia.
    - split; [lia | reflexivity].
    - split; [lia | reflexivity].
    - vm_compute. discriminate.
    - intros _. reflexivity. }
  assert (H1 : stream_bit (source bs_repeat_first) (bitpos bs_repeat_first + 1) = 0)
    by reflexivity.
  assert (H2 : stream_bit (source bs_repeat_first) (bitpos bs_repeat_first + 2) = 1)
    by reflexivity.
  assert (H3 : bitpos bs_repeat_first + 17
               + 3 * (bits_at (source bs_repeat_first) (bitpos bs_repeat_first + 13) 4 + 4)
               <= 8 * source_len bs_repeat_first)
    by (vm_compute; discriminate).
  conjs; try assumption.
  exact (dynamic_block_tree_description HuffTree init_hufftree readsym
           bs_repeat_first Hwf H1 H2 H3).
Defined.

(** C5, counterexample: the block [05 00 22 01 ...] has HCLEN = 0, yet four
    three-bit lengths are read (the cursor moves by 14 + 12 bits) and the
    symbols 16, 17 and 18 get the lengths 1, 2 and 2: not every length is 0. *)
Lemma hclen_plus_4_lengths_read :
  bits_at (source bs_repeat_first_3) (bitpos bs_repeat_first_3 + 10) 4 = 0
  /\ read_pretree bs_repeat_first_3
     = Ret (257, 1, pretree_lengths_repeat_first, bs_repeat_first_29)
  /\ bitpos bs_repeat_first_29 = bitpos bs_repeat_first_3 + 14 + 3 * 4
  /\ nth 16 pretree_lengths_repeat_first 0 = 1
  /\ pretree_lengths_repeat_first <> repeat 0 19.
Proof.
  conjs; try reflexivity. discriminate.
Qed.

(** ** The loop bound of the code-length loop *)

Lemma getbit_value (bs bs1 : Bitstream) (b : Z) :
  getbit bs = Ret (b, bs1) -> 0 <= b <= 1.
Proof.
  assert (Hb : 0 <= Z.land (Z.shiftr (curword_val bs) (curbit bs)) 1 <= 1).
  { split.
    - apply Z.land_nonneg. right. lia.
    - destruct (Z.neg_nonneg_cases (curbit bs)) as [Hneg|Hpos].
      + change 1 with (Z.ones 1) at 1. rewrite Z.land_ones by lia.
        pose proof (Z.mod_pos_bound (Z.shiftr (curword_val bs) (curbit bs)) (2 ^ 1) eq_refl).
        change (2 ^ 1) with 2 in *. lia.
      + rewrite land_shiftr_1 by lia. apply b2z_range. }
  unfold getbit. intros H.
  destruct (15 <? curbit bs + 1).
  - destruct (size_t (curword bs + 2) <? source_len bs).
    + destruct (little_uint16t (source bs) (size_t (curword bs + 2)));
        cbn [bind] in H; try discriminate H. injection H as <- _. exact Hb.
    + injection H as <- _. exact Hb.
  - injection H as <- _. exact Hb.
Qed.

Lemma getbits_loop_nonneg (k : nat) :
  forall (i bits v : Z) (bs bs' : Bitstream),
    0 <= bits -> getbits_loop k i bits bs = Ret (v, bs') -> 0 <= v.
Proof.
  induction k as [|k IH]; intros i bits v bs bs' Hbits H; cbn [getbits_loop] in H.
  - injection H as <- _. exact Hbits.
  - destruct (getbit bs) as [[b bs1]|m| |] eqn:Hg; cbn [bind] in H; try discriminate H.
    apply getbit_value in Hg.
    eapply IH; [|exact H].
    apply Z.lor_nonneg. split; [exact Hbits | apply Z.shiftl_nonneg; lia].
Qed.

Lemma getbits_nonneg (bs bs' : Bitstream) (n v : Z) :
  getbits bs n = Ret (v, bs') -> 0 <= v.
Proof. apply getbits_loop_nonneg. lia. Qed.

Lemma has_fuel_bind {A B : Type} (m : outcome A) (k : A -> outcome B) :
  has_fuel m -> (forall a, m = Ret a -> has_fuel (k a)) -> has_fuel (bind m k).
Proof.
  intros Hm Hk. destruct m as [a|msg| |]; cbn [bind].
  - apply Hk. reflexivity.
  - unfold has_fuel; discriminate.
  - unfold has_fuel; discriminate.
  - contradiction Hm. reflexivity.
Qed.

Lemma has_fuel_load m i : has_fuel (load m i).
Proof. unfold load. destruct (in_range m i); unfold has_fuel; discriminate. Qed.

Lemma has_fuel_store m i v : has_fuel (store m i v).
Proof. unfold store. destruct (in_range m i); unfold has_fuel; discriminate. Qed.

Lemma has_fuel_load8 m i : has_fuel (load8 m i).
Proof. unfold load8. destruct (in_range m i); unfold has_fuel; discriminate. Qed.

Lemma has_fuel_little_uint16t d p : has_fuel (little_uint16t d p).
Proof.
  unfold little_uint16t.
  repeat (apply has_fuel_bind; [apply has_fuel_load8|intros ? _]).
  unfold has_fuel; discriminate.
Qed.

Lemma has_fuel_getbit bs : has_fuel (getbit bs).
Proof.
  unfold getbit. destruct (15 <? curbit bs + 1); [|unfold has_fuel; discriminate].
  destruct (size_t (curword bs + 2) <? source_len bs); [|unfold has_fuel; discriminate].
  apply has_fuel_bind; [apply has_fuel_little_uint16t|intros ? _].
  unfold has_fuel; discriminate.
Qed.

Lemma has_fuel_getbits_loop k : forall i bits bs, has_fuel (getbits_loop k i bits bs).
Proof.
  induction k as [|k IH]; intros; cbn [getbits_loop]; [unfold has_fuel; discriminate|].
  apply has_fuel_bind; [apply has_fuel_getbit|]. intros [b bs1] _. apply IH.
Qed.

Lemma has_fuel_getbits bs n : has_fuel (getbits bs n).
Proof. apply has_fuel_getbits_loop. Qed.

Lemma has_fuel_fill_val k : forall j v a, has_fuel (fill_val k j v a).
Proof.
  induction k as [|k IH]; intros; cbn [fill_val]; [unfold has_fuel; discriminate|].
  apply has_fuel_bind; [apply has_fuel_store|]. intros a1 _. apply IH.
Qed.

Lemma has_fuel_fill_prev k : forall j i a, has_fuel (fill_prev k j i a).
Proof.
  induction k as [|k IH]; intros; cbn [fill_prev]; [unfold has_fuel; discriminate|].
  apply has_fuel_bind; [apply has_fuel_load|]. intros v _.
  apply has_fuel_bind; [apply has_fuel_store|]. intros a1 _. apply IH.
Qed.

Section PretreeLoopBound.

Variable tree : Type.
Variable sym : tree -> Bitstream -> outcome (Z * Bitstream).
Hypothesis sym_has_fuel : forall t bs, has_fuel (sym t bs).

(** [i] grows in every round, so [num_lengths - i] rounds are enough. *)
Lemma pretree_loop_bound (fuel : nat) :
  forall pretree num_lengths i lengths bs,
    num_lengths - i <= Z.of_nat fuel ->
    has_fuel (pretree_loop tree sym fuel pretree num_lengths i lengths bs).
Proof.
  induction fuel as [|fuel IH]; intros pretree n i lengths bs Hf;
    cbn [pretree_loop]; destruct (Z.ltb_spec i n); try (unfold has_fuel; discriminate); try lia.
  apply has_fuel_bind; [apply sym_has_fuel|]. intros [code bs1] _.
  destruct (code <=? 15).
  { apply has_fuel_bind; [apply has_fuel_store|]. intros l1 _. apply IH. lia. }
  destruct (code =? 16).
  { apply has_fuel_bind; [apply has_fuel_getbits|]. intros [x bs2] Hx.
    apply getbits_nonneg in Hx. cbv zeta.
    apply has_fuel_bind; [apply has_fuel_fill_prev|]. intros l1 _. apply IH. lia. }
  destruct (code =? 17).
  { apply has_fuel_bind; [apply has_fuel_getbits|]. intros [x bs2] Hx.
    apply getbits_nonneg in Hx. cbv zeta.
    apply has_fuel_bind; [apply has_fuel_fill_val|]. intros l1 _. apply IH. lia. }
  apply has_fuel_bind; [apply has_fuel_getbits|]. intros [x bs2] Hx.
  apply getbits_nonneg in Hx. cbv zeta.
  apply has_fuel_bind; [apply has_fuel_fill_val|]. intros l1 _. apply IH. lia.
Qed.

Lemma deflate_decode_pretree_bound pretree bs lengths num_lengths :
  has_fuel (deflate_decode_pretree_with tree sym pretree bs lengths num_lengths).
Proof. apply pretree_loop_bound. lia. Qed.

End PretreeLoopBound.

(** With the placeholder [readsym] every decoded length is 0: the call
    writes exactly [num_lengths] zeros and reads no bit. *)
Lemma pretree_loop_readsym (fuel : nat) :
  forall (ht : HuffTree) (n i : Z) (lengths : list Z) (bs : Bitstream),
    0 <= i <= n -> n <= Z.of_nat (length lengths) -> n - i <= Z.of_nat fuel ->
    exists l,
      pretree_loop HuffTree readsym fuel ht n i lengths bs = Ret (l, n, bs)
      /\ length l = length lengths
      /\ (forall j, (Z.to_nat i <= j < Z.to_nat n)%nat -> nth j l 0 = 0)
      /\ (forall j, (j < Z.to_nat i \/ Z.to_nat n <= j)%nat -> nth j l 0 = nth j lengths 0).
Proof.
  induction fuel as [|fuel IH]; intros ht n i lengths bs Hi Hn Hf;
    cbn [pretree_loop]; destruct (Z.ltb_spec i n); try lia.
  - exists lengths. replace i with n by lia.
    conjs; try reflexivity. intros j Hj. lia.
  - unfold readsym at 1. cbn [bind]. change (0 <=? 15) with true. cbv iota.
    unfold store. rewrite in_range_true by lia. cbn [bind].
    destruct (IH ht n (i + 1) (upd lengths (Z.to_nat i) 0) bs)
      as (l & Hr & Hl & Hz & Hk); try lia.
    { rewrite length_upd. lia. }
    exists l. conjs.
    + exact Hr.
    + rewrite Hl. apply length_upd.
    + intros j Hj. destruct (Nat.eq_dec j (Z.to_nat i)) as [->|Hne].
      * rewrite Hk by lia. apply nth_upd_eq. lia.
      * apply Hz. lia.
    + intros j Hj. rewrite Hk by lia. apply nth_upd_neq. lia.
  - exists lengths. replace i with n by lia.
    conjs; try reflexivity. intros j Hj. lia.
Qed.

Lemma deflate_decode_pretree_readsym
      (ht : HuffTree) (bs : Bitstream) (lengths : list Z) (n : Z) :
  0 <= n <= Z.of_nat (length lengths) ->
  exists l,
    deflate_decode_pretree ht bs lengths n = Ret (l, n, bs)
    /\ length l = length lengths
    /\ (forall j, (j < Z.to_nat n)%nat -> nth j l 0 = 0)
    /\ (forall j, (Z.to_nat n <= j)%nat -> nth j l 0 = nth j lengths 0).
Proof.
  intros Hn.
  destruct (pretree_loop_readsym (Z.to_nat n) ht n 0 lengths bs)
    as (l & Hr & Hl & Hz & Hk); try lia.
  exists l. conjs; try assumption.
  - intros j Hj. apply Hz. lia.
  - intros j Hj. apply Hk. lia.
Qed.

(** A buffer of odd length needs one readable byte behind it: the 16-bit
    word under the last byte is loaded whole.  In [main] the trailer
    follows the payload. *)
Example odd_buffer_pad_byte :
  (bs <- bitstream_init [x01; x02; x03] 3 ;; getbits bs 16) = Undef
  /\ (bs <- bitstream_init [x01; x02; x03; x00] 3 ;;
      '(v, bs1) <- getbits bs 16 ;; Ret (v, bitpos bs1)) = Ret (0x0201, 16).
Proof. split; reflexivity. Qed.

(** ** The states used above are states of the program *)

Example test_states_reached :
  bitstream_init [x01; x00] 2 = Ret bs_one
  /\ (bs <- bitstream_init [x01; x00] 2 ;; '(_, bs1) <- getbit bs ;; Ret bs1)
     = Ret bs_one_1
  /\ bitstream_init payload_repeat_first 6 = Ret bs_repeat_first
  /\ (bs <- bitstream_init payload_repeat_first 6 ;;
      '(_, bs1) <- getbit bs ;; '(_, bs2) <- getbits bs1 2 ;; Ret bs2)
     = Ret bs_repeat_first_3
  /\ bitstream_init payload_overrun 6 = Ret bs_overrun
  /\ (bs <- bitstream_init payload_overrun 6 ;;
      '(_, bs1) <- getbit bs ;; '(_, bs2) <- getbits bs1 2 ;;
      '(_, _, pl, bs4) <- read_pretree bs2 ;;
      t <- Canonical.build pl 19 ;; Ret (t, bs4))
     = Ret (pretree_overrun, bs_overrun_29).
Proof. conjs; reflexivity. Qed.

(** * Further properties of the code *)

(** ** Little-endian loads *)

(** X1: [little_uint16t(d + p)], with both bytes inside the object, is the
    16-bit number whose low byte is [d[p]] and whose high byte is
    [d[p+1]]. *)
Theorem little_uint16t_little_endian (d : list byte) (p : Z) :
  0 <= p -> p + 1 < Z.of_nat (length d) ->
  little_uint16t d p = Ret (byte_at d p + 2 ^ 8 * byte_at d (p + 1))
  /\ 0 <= byte_at d p + 2 ^ 8 * byte_at d (p + 1) < 2 ^ 16.
Proof.
  intros H0 H1. unfold byte_at.
  pose proof (byte_val_range (nth (Z.to_nat p) d x00)) as R0.
  pose proof (byte_val_range (nth (Z.to_nat (p + 1)) d x00)) as R1.
  split; [|lia].
  rewrite little_uint16t_in by lia. f_equal. unfold word_at.
  rewrite Z.shiftl_mul_pow2 by lia. rewrite lor_high_low by lia.
  unfold uint16_t. rewrite Z.mod_small by lia. lia.
Qed.

Lemma little_uint16t_little_endian_witness :
  0 <= 2 /\ 2 + 1 < Z.of_nat (length [x8d; x01; xff; x00])
  /\ little_uint16t [x8d; x01; xff; x00] 2
     = Ret (byte_at [x8d; x01; xff; x00] 2 + 2 ^ 8 * byte_at [x8d; x01; xff; x00] (2 + 1))
  /\ 0 <= byte_at [x8d; x01; xff; x00] 2 + 2 ^ 8 * byte_at [x8d; x01; xff; x00] (2 + 1)
     < 2 ^ 16.
Proof.
  assert (H0 : 0 <= 2) by lia.
  assert (H1 : 2 + 1 < Z.of_nat (length [x8d; x01; xff; x00])) by (vm_compute; reflexivity).
  split; [exact H0|]. split; [exact H1|].
  exact (little_uint16t_little_endian [x8d; x01; xff; x00] 2 H0 H1).
Defined.

(** X2: [little_uint32t(d + p)], with the four bytes inside the object, is
    the 32-bit number [d[p] + 2^8 d[p+1] + 2^16 d[p+2] + 2^24 d[p+3]], also
    when the top byte is 0x80 or more. *)
Theorem little_uint32t_little_endian (d : list byte) (p : Z) :
  0 <= p -> p + 3 < Z.of_nat (length d) ->
  little_uint32t d p = Ret (le32_at d p) /\ 0 <= le32_at d p < 2 ^ 32.
Proof.
  intros H0 H3. split; [apply little_uint32t_in; lia | apply le32_at_range].
Qed.

Lemma little_uint32t_little_endian_witness :
  0 <= 10 /\ 10 + 3 < Z.of_nat (length gz_extra_wrap)
  /\ little_uint32t gz_extra_wrap 10 = Ret (le32_at gz_extra_wrap 10)
  /\ 0 <= le32_at gz_extra_wrap 10 < 2 ^ 32.
Proof.
  assert (H0 : 0 <= 10) by lia.
  assert (H3 : 10 + 3 < Z.of_nat (length gz_extra_wrap)) by (vm_compute; reflexivity).
  split; [exact H0|]. split; [exact H3|].
  exact (little_uint32t_little_endian gz_extra_wrap 10 H0 H3).
Defined.

(** ** The bit reader *)

Lemma bitstream_init_spec (src : list byte) (len : Z) :
  2 <= Z.of_nat (length src) ->
  0 <= len -> len + 1 < 2 ^ 64 ->
  len + len mod 2 <= Z.of_nat (length src) ->
  exists bs,
    bitstream_init src len = Ret bs
    /\ wf_bitstream bs
    /\ bitpos bs = 0 /\ source bs = src /\ source_len bs = len.
Proof.
  intros H2 H0 H64 Hmem. unfold bitstream_init.
  rewrite little_uint16t_in by lia. cbn [bind].
  eexists. split; [reflexivity|].
  split; [constructor|conjs]; cbn [curbit curword curword_val source source_len bitpos];
    try lia; try reflexivity.
  split; [lia | reflexivity].
Qed.

(** X3: [bitstream_init] on a buffer of at least two bytes that holds
    [len] bytes (and the pad byte of a last odd word) returns a bit stream
    at bit 0 whose cached word agrees with the buffer: the state from which
    the invariant of [getbit] and [getbits] starts. *)
Theorem bitstream_init_wf (src : list byte) (len : Z) :
  2 <= Z.of_nat (length src) ->
  0 <= len -> len + 1 < 2 ^ 64 ->
  len + len mod 2 <= Z.of_nat (length src) ->
  exists bs,
    bitstream_init src len = Ret bs
    /\ wf_bitstream bs
    /\ bitpos bs = 0 /\ source bs = src /\ source_len bs = len.
Proof. exact (bitstream_init_spec src len). Qed.

Lemma bitstream_init_wf_witness :
  2 <= Z.of_nat (length stored_payload)
  /\ 0 <= 5 /\ 5 + 1 < 2 ^ 64
  /\ 5 + 5 mod 2 <= Z.of_nat (length stored_payload)
  /\ exists bs,
      bitstream_init stored_payload 5 = Ret bs
      /\ wf_bitstream bs
      /\ bitpos bs = 0 /\ source bs = stored_payload /\ source_len bs = 5.
Proof.
  assert (H2 : 2 <= Z.of_nat (length stored_payload)) by (vm_compute; discriminate).
  assert (H0 : 0 <= 5) by lia.
  assert (H64 : 5 + 1 < 2 ^ 64) by (vm_compute; reflexivity).
  assert (Hm : 5 + 5 mod 2 <= Z.of_nat (length stored_payload))
    by (vm_compute; discriminate).
  conjs; try assumption.
  exact (bitstream_init_wf stored_payload 5 H2 H0 H64 Hm).
Defined.

Lemma getbits_loop_range (k : nat) :
  forall (i bits v : Z) (bs bs' : Bitstream),
    0 <= i -> 0 <= bits < 2 ^ i ->
    getbits_loop k i bits bs = Ret (v, bs') ->
    0 <= v < 2 ^ (i + Z.of_nat k).
Proof.
  induction k as [|k IH]; intros i bits v bs bs' Hi Hbits H; cbn [getbits_loop] in H.
  - injection H as <- _. rewrite Z.add_0_r. exact Hbits.
  - destruct (getbit bs) as [[b bs1]|m| |] eqn:Hg; cbn [bind] in H; try discriminate H.
    apply getbit_value in Hg.
    rewrite lor_shifted_bit in H by lia.
    replace (i + Z.of_nat (S k)) with ((i + 1) + Z.of_nat k) by lia.
    eapply IH; [| |exact H]; [lia|].
    rewrite Z.shiftl_mul_pow2 by lia. rewrite Z.pow_add_r by lia.
    change (2 ^ 1) with 2. nia.
Qed.

(** X4: for [0 <= n <= 31], the counts for which the [int] accumulator
    holds every bit, and whatever the state of the bit stream, also past
    the end of its buffer, a value returned by [getbits(bs, n)] has at most
    [n] bits: it lies in [0, 2^n). *)
Theorem getbits_value_range (bs bs' : Bitstream) (n v : Z) :
  0 <= n <= 31 -> getbits bs n = Ret (v, bs') -> 0 <= v < 2 ^ n.
Proof.
  intros Hn H. unfold getbits in H.
  apply getbits_loop_range in H; [|lia|change (2 ^ 0) with 1; lia].
  rewrite Z2Nat.id in H by lia. exact H.
Qed.

Lemma getbits_value_range_witness :
  0 <= 16 <= 31
  /\ getbits bs_at_end 16 = Ret (0xffff, mkBitstream 0 4 0xffff [xff; xff] 2)
  /\ 0 <= 0xffff < 2 ^ 16.
Proof.
  assert (Hn : 0 <= 16 <= 31) by lia.
  assert (H : getbits bs_at_end 16 = Ret (0xffff, mkBitstream 0 4 0xffff [xff; xff] 2))
    by reflexivity.
  split; [exact Hn|]. split; [exact H|].
  exact (getbits_value_range bs_at_end _ 16 0xffff Hn H).
Defined.

Lemma getbits_loop_split (k1 : nat) :
  forall (k2 : nat) (i bits : Z) (bs : Bitstream),
    getbits_loop (k1 + k2) i bits bs
    = ('(v, bs1) <- getbits_loop k1 i bits bs ;;
       getbits_loop k2 (i + Z.of_nat k1) v bs1).
Proof.
  induction k1 as [|k1 IH]; intros k2 i bits bs.
  - cbn [getbits_loop Nat.add bind]. rewrite Z.add_0_r. reflexivity.
  - cbn [getbits_loop Nat.add].
    destruct (getbit bs) as [[b bs1]|m| |]; cbn [bind]; try reflexivity.
    rewrite IH. replace (i + 1 + Z.of_nat k1) with (i + Z.of_nat (S k1)) by lia.
    reflexivity.
Qed.

Lemma getbits_loop_shift (k : nat) :
  forall (i bits : Z) (bs : Bitstream),
    0 <= i ->
    getbits_loop k i bits bs
    = ('(v, bs') <- getbits_loop k 0 0 bs ;; Ret (Z.lor bits (Z.shiftl v i), bs')).
Proof.
  induction k as [|k IH]; intros i bits bs Hi.
  - cbn [getbits_loop bind]. rewrite Z.shiftl_0_l, Z.lor_0_r. reflexivity.
  - cbn [getbits_loop].
    destruct (getbit bs) as [[b bs1]|m| |]; cbn [bind]; try reflexivity.
    rewrite (IH (i + 1)) by lia. rewrite (IH (0 + 1)) by lia.
    destruct (getbits_loop k 0 0 bs1) as [[v bs']|m| |]; cbn [bind]; try reflexivity.
    f_equal. f_equal.
    rewrite Z.lor_0_l, Z.shiftl_0_r, Z.shiftl_lor, Z.shiftl_shiftl by lia.
    rewrite Z.lor_assoc. change (0 + 1) with 1. rewrite (Z.add_comm 1 i). reflexivity.
Qed.

(** X5: for [a + b <= 31], the counts for which the [int] accumulator
    holds every bit, reading [a + b] bits at once is reading [a] bits and
    then [b] bits: the first value is the low part of the result, the
    second one is shifted left by [a].  This holds in every state of the
    bit stream and for every outcome of the reads. *)
Theorem getbits_split (bs : Bitstream) (a b : Z) :
  0 <= a -> 0 <= b -> a + b <= 31 ->
  getbits bs (a + b)
  = ('(lo, bs1) <- getbits bs a ;;
     '(hi, bs2) <- getbits bs1 b ;;
     Ret (lo + 2 ^ a * hi, bs2)).
Proof.
  intros Ha Hb _. unfold getbits.
  rewrite Z2Nat.inj_add by lia. rewrite getbits_loop_split.
  destruct (getbits_loop (Z.to_nat a) 0 0 bs) as [[lo bs1]|m| |] eqn:Hlo;
    cbn [bind]; try reflexivity.
  apply getbits_loop_range in Hlo; [|lia|change (2 ^ 0) with 1; lia].
  rewrite Z2Nat.id in *  by lia. rewrite Z.add_0_l in *.
  rewrite getbits_loop_shift by lia.
  destruct (getbits_loop (Z.to_nat b) 0 0 bs1) as [[hi bs2]|m| |];
    cbn [bind]; try reflexivity.
  f_equal. f_equal.
  rewrite Z.shiftl_mul_pow2 by lia. rewrite Z.lor_comm.
  rewrite lor_high_low by lia. lia.
Qed.

Lemma getbits_split_witness :
  0 <= 3 /\ 0 <= 7 /\ 3 + 7 <= 31
  /\ getbits bs_demo (3 + 7)
     = ('(lo, bs1) <- getbits bs_demo 3 ;;
        '(hi, bs2) <- getbits bs1 7 ;;
        Ret (lo + 2 ^ 3 * hi, bs2)).
Proof.
  assert (Ha : 0 <= 3) by lia. assert (Hb : 0 <= 7) by lia.
  assert (Hab : 3 + 7 <= 31) by lia.
  split; [exact Ha|]. split; [exact Hb|]. split; [exact Hab|].
  exact (getbits_split bs_demo 3 7 Ha Hb Hab).
Defined.

(** ** The checks of the gzip header *)

Lemma header_fixed_cases (gz : list byte) :
  10 <= Z.of_nat (length gz) ->
  header_fixed gz
  = if negb ((byte_at gz 0 =? 0x1f) && (byte_at gz 1 =? 0x8b))
    then Fatal "invalid file header"
    else if negb (byte_at gz 2 =? 8)
         then Fatal "unexpected compression method %d"
         else Ret (byte_at gz 3).
Proof.
  intros Hlen. unfold header_fixed, byte_at.
  destruct (Z.ltb_spec (Z.of_nat (length gz)) 10); [lia|].
  do 2 (rewrite load8_in by lia; cbn [bind]).
  destruct (negb _); [reflexivity|].
  rewrite load8_in by lia; cbn [bind].
  destruct (negb _); [reflexivity|].
  rewrite load8_in by lia; cbn [bind].
  rewrite little_uint32t_in by lia; cbn [bind].
  do 2 (rewrite load8_in by lia; cbn [bind]). reflexivity.
Qed.

Lemma parse_header_fatal_not_small (gz : list byte) :
  10 <= Z.of_nat (length gz) ->
  fatal_in ["invalid file header"; "unexpected compression method %d"]%string
           (parse_header gz).
Proof.
  intros Hlen. unfold parse_header. rewrite header_fixed_cases by exact Hlen.
  unfold skip_extra, skip_string, skip_hcrc. fatal_auto.
Qed.

(** X6: [main] ends with "file too small" exactly on the files of fewer
    than 10 bytes: whatever such a file holds, and on no longer file. *)
Theorem main_file_too_small (fuel : nat) (gz : list byte) :
  main fuel gz = Fatal "file too small" <-> Z.of_nat (length gz) < 10.
Proof.
  split.
  - intros H. destruct (Z.lt_ge_cases (Z.of_nat (length gz)) 10) as [|Hge]; [assumption|].
    exfalso.
    assert (Hin : fatal_in ["invalid file header"; "unexpected compression method %d";
                            "invalid block"; "unsupported uncompressed block"]%string
                           (main fuel gz)).
    { unfold main, main_with.
      apply fatal_in_bind.
      - intros msg Hm. apply (parse_header_fatal_not_small gz Hge) in Hm.
        simpl in Hm. simpl. tauto.
      - intros off. apply fatal_in_bind; [apply fatal_in_bitstream_init|]. intros bs.
        apply fatal_in_bind; [|intros; apply fatal_in_Ret].
        apply fatal_in_blocks_loop.
        + intros. unfold init_hufftree. apply fatal_in_Ret.
        + intros. unfold readsym. apply fatal_in_Ret.
        + simpl. tauto. }
    apply Hin in H. simpl in H.
    repeat (destruct H as [H|H]; [discriminate H|]). exact H.
  - intros Hlen. unfold main, main_with, parse_header, header_fixed.
    destruct (Z.ltb_spec (Z.of_nat (length gz)) 10); [reflexivity | lia].
Qed.

Lemma main_file_too_small_witness :
  Z.of_nat (length gz_short) < 10 /\ main 3 gz_short = Fatal "file too small".
Proof.
  assert (H : Z.of_nat (length gz_short) < 10) by (vm_compute; reflexivity).
  split; [exact H|].
  exact (proj2 (main_file_too_small 3 gz_short) H).
Defined.

(** X7: on a file of at least 10 bytes whose first two bytes are not
    [1f 8b], [main] ends with "invalid file header", whatever the Huffman
    routines are and before the method byte or anything else is looked at. *)
Theorem main_bad_magic
        (tree : Type) (build : list Z -> Z -> outcome tree)
        (sym : tree -> Bitstream -> outcome (Z * Bitstream))
        (fuel : nat) (gz : list byte) :
  10 <= Z.of_nat (length gz) ->
  byte_at gz 0 <> 0x1f \/ byte_at gz 1 <> 0x8b ->
  main_with tree build sym fuel gz = Fatal "invalid file header".
Proof.
  intros Hlen Hmagic. unfold main_with, parse_header.
  rewrite header_fixed_cases by exact Hlen.
  destruct (Z.eqb_spec (byte_at gz 0) 0x1f); destruct (Z.eqb_spec (byte_at gz 1) 0x8b);
    cbn [andb negb bind]; try reflexivity.
  destruct Hmagic; contradiction.
Qed.

Lemma main_bad_magic_witness :
  10 <= Z.of_nat (length gz_bad_magic)
  /\ (byte_at gz_bad_magic 0 <> 0x1f \/ byte_at gz_bad_magic 1 <> 0x8b)
  /\ main 5 gz_bad_magic = Fatal "invalid file header".
Proof.
  assert (H1 : 10 <= Z.of_nat (length gz_bad_magic)) by (vm_compute; discriminate).
  assert (H2 : byte_at gz_bad_magic 0 <> 0x1f \/ byte_at gz_bad_magic 1 <> 0x8b)
    by (left; vm_compute; discriminate).
  split; [exact H1|]. split; [exact H2|].
  exact (main_bad_magic HuffTree init_hufftree readsym 5 gz_bad_magic H1 H2).
Defined.

(** X8: on a file of at least 10 bytes with the magic [1f 8b] and a method
    byte other than 8, [main] ends with "unexpected compression method". *)
Theorem main_bad_method
        (tree : Type) (build : list Z -> Z -> outcome tree)
        (sym : tree -> Bitstream -> outcome (Z * Bitstream))
        (fuel : nat) (gz : list byte) :
  10 <= Z.of_nat (length gz) ->
  byte_at gz 0 = 0x1f -> byte_at gz 1 = 0x8b -> byte_at gz 2 <> 8 ->
  main_with tree build sym fuel gz = Fatal "unexpected compression method %d".
Proof.
  intros Hlen H0 H1 H2. unfold main_with, parse_header.
  rewrite header_fixed_cases by exact Hlen. rewrite H0, H1.
  destruct (Z.eqb_spec (byte_at gz 2) 8); [contradiction|]. reflexivity.
Qed.

Lemma main_bad_method_witness :
  10 <= Z.of_nat (length gz_bad_method)
  /\ byte_at gz_bad_method 0 = 0x1f /\ byte_at gz_bad_method 1 = 0x8b
  /\ byte_at gz_bad_method 2 <> 8
  /\ main 5 gz_bad_method = Fatal "unexpected compression method %d".
Proof.
  assert (Hl : 10 <= Z.of_nat (length gz_bad_method)) by (vm_compute; discriminate).
  assert (H0 : byte_at gz_bad_method 0 = 0x1f) by reflexivity.
  assert (H1 : byte_at gz_bad_method 1 = 0x8b) by reflexivity.
  assert (H2 : byte_at gz_bad_method 2 <> 8) by (vm_compute; discriminate).
  conjs; try assumption.
  exact (main_bad_method HuffTree init_hufftree readsym 5 gz_bad_method Hl H0 H1 H2).
Defined.

(** ** The name and comment fields *)

Lemma skipn_nth_cons (l : list byte) :
  forall n : nat, (n < length l)%nat -> skipn n l = nth n l x00 :: skipn (S n) l.
Proof.
  induction l as [|h t IH]; intros n Hn; cbn [length] in Hn; [lia|].
  destruct n as [|n]; [reflexivity|].
  cbn [skipn nth]. rewrite IH by lia. reflexivity.
Qed.

Lemma strlen_first_zero (gz : list byte) (k : nat) :
  forall off : Z,
    0 <= off -> off + Z.of_nat k < Z.of_nat (length gz) ->
    (forall j, off <= j < off + Z.of_nat k -> byte_at gz j <> 0) ->
    byte_at gz (off + Z.of_nat k) = 0 ->
    strlen gz off = Ret (Z.of_nat k).
Proof.
  induction k as [|k IH]; intros off H0 Hin Hnz Hz; unfold strlen;
    rewrite skipn_nth_cons by lia; cbn [strlen_from];
    fold (byte_at gz off).
  - rewrite Z.add_0_r in Hz. rewrite Hz. reflexivity.
  - destruct (Z.eqb_spec (byte_at gz off) 0) as [E|_].
    { exfalso. apply (Hnz off); [lia | exact E]. }
    replace (S (Z.to_nat off)) with (Z.to_nat (off + 1)) by lia.
    fold (strlen gz (off + 1)). rewrite (IH (off + 1)); try lia.
    + cbn [bind]. f_equal. lia.
    + intros j Hj. apply Hnz. lia.
    + replace (off + 1 + Z.of_nat k) with (off + Z.of_nat (S k)) by lia. exact Hz.
Qed.

Lemma strlen_no_zero (gz : list byte) (k : nat) :
  forall off : Z,
    0 <= off -> Z.of_nat (length gz) <= off + Z.of_nat k ->
    (forall j, off <= j < Z.of_nat (length gz) -> byte_at gz j <> 0) ->
    strlen gz off = Undef.
Proof.
  induction k as [|k IH]; intros off H0 Hk Hnz; unfold strlen.
  - rewrite skipn_all2 by lia. reflexivity.
  - destruct (Z.lt_ge_cases off (Z.of_nat (length gz))) as [Hin|Hout].
    + rewrite skipn_nth_cons by lia. cbn [strlen_from]. fold (byte_at gz off).
      destruct (Z.eqb_spec (byte_at gz off) 0) as [E|_].
      { exfalso. apply (Hnz off); [lia | exact E]. }
      replace (S (Z.to_nat off)) with (Z.to_nat (off + 1)) by lia.
      fold (strlen gz (off + 1)). rewrite (IH (off + 1)); try lia; [reflexivity|].
      intros j Hj. apply Hnz. lia.
    + rewrite skipn_all2 by lia. reflexivity.
Qed.

(** X9: when its flag is set, the name (mask 8) or comment (mask 16) field
    ends at the first zero byte at or after the offset: with that byte at
    position [z], the next field starts at [z + 1]. *)
Theorem skip_string_to_terminator (gz : list byte) (flags mask off z : Z) :
  Z.land flags mask <> 0 ->
  0 <= off <= z -> z < Z.of_nat (length gz) -> Z.of_nat (length gz) < 2 ^ 63 ->
  (forall j, off <= j < z -> byte_at gz j <> 0) ->
  byte_at gz z = 0 ->
  skip_string gz flags mask off = Ret (z + 1).
Proof.
  intros Hflag Hoff Hz Hsize Hnz Hzero. unfold skip_string.
  destruct (Z.eqb_spec (Z.land flags mask) 0); [contradiction|].
  rewrite (strlen_first_zero gz (Z.to_nat (z - off)) off); try lia.
  - cbn [bind]. f_equal. unfold size_t.
    rewrite (Z.mod_small (Z.of_nat (Z.to_nat (z - off)) + 1)) by lia.
    rewrite Z.mod_small by lia. lia.
  - intros j Hj. apply Hnz. lia.
  - replace (off + Z.of_nat (Z.to_nat (z - off))) with z by lia. exact Hzero.
Qed.

Lemma skip_string_to_terminator_witness :
  Z.land 8 8 <> 0
  /\ 0 <= 10 <= 12 /\ 12 < Z.of_nat (length gz_name)
  /\ Z.of_nat (length gz_name) < 2 ^ 63
  /\ (forall j, 10 <= j < 12 -> byte_at gz_name j <> 0)
  /\ byte_at gz_name 12 = 0
  /\ skip_string gz_name 8 8 10 = Ret (12 + 1).
Proof.
  assert (H1 : Z.land 8 8 <> 0) by (vm_compute; discriminate).
  assert (H2 : 0 <= 10 <= 12) by lia.
  assert (H3 : 12 < Z.of_nat (length gz_name)) by (vm_compute; reflexivity).
  assert (H4 : Z.of_nat (length gz_name) < 2 ^ 63) by (vm_compute; reflexivity).
  assert (H5 : forall j, 10 <= j < 12 -> byte_at gz_name j <> 0).
  { intros j Hj. assert (E : j = 10 \/ j = 11) by lia.
    destruct E as [->| ->]; vm_compute; discriminate. }
  assert (H6 : byte_at gz_name 12 = 0) by reflexivity.
  conjs; try assumption; try lia.
  exact (skip_string_to_terminator gz_name 8 8 10 12 H1 H2 H3 H4 H5 H6).
Defined.

(** X10: when its flag is set and no byte from the offset to the end of the
    file is zero, the scan for the end of the name or comment leaves the
    file: the run ends in an access outside the buffer, not in an error
    message. *)
Theorem skip_string_unterminated (gz : list byte) (flags mask off : Z) :
  Z.land flags mask <> 0 -> 0 <= off ->
  (forall j, off <= j < Z.of_nat (length gz) -> byte_at gz j <> 0) ->
  skip_string gz flags mask off = Undef.
Proof.
  intros Hflag Hoff Hnz. unfold skip_string.
  destruct (Z.eqb_spec (Z.land flags mask) 0); [contradiction|].
  rewrite (strlen_no_zero gz (length gz) off); try lia; [reflexivity | exact Hnz].
Qed.

Lemma skip_string_unterminated_witness :
  Z.land 8 8 <> 0 /\ 0 <= 10
  /\ (forall j, 10 <= j < Z.of_nat (length gz_name_open) -> byte_at gz_name_open j <> 0)
  /\ skip_string gz_name_open 8 8 10 = Undef.
Proof.
  assert (H1 : Z.land 8 8 <> 0) by (vm_compute; discriminate).
  assert (H2 : 0 <= 10) by lia.
  assert (H3 : forall j, 10 <= j < Z.of_nat (length gz_name_open) ->
                         byte_at gz_name_open j <> 0).
  { intros j Hj. change (Z.of_nat (length gz_name_open)) with 14 in Hj.
    assert (E : j = 10 \/ j = 11 \/ j = 12 \/ j = 13) by lia.
    destruct E as [->|[->|[->| ->]]]; vm_compute; discriminate. }
  conjs; try assumption.
  exact (skip_string_unterminated gz_name_open 8 8 10 H1 H2 H3).
Defined.

(** ** What [main] hands to the bit reader *)

(** X11: for a file of at least 18 bytes with a good fixed header and none
    of the four optional-field flags set, the payload starts at offset 10
    and its length is the file size minus the 10 header bytes and the 8
    trailer bytes; the bit reader starts on it at bit 0, consistent with
    the buffer, and the run is the block loop on that stream. *)
Theorem main_payload_without_optional_fields
        (tree : Type) (build : list Z -> Z -> outcome tree)
        (sym : tree -> Bitstream -> outcome (Z * Bitstream))
        (fuel : nat) (gz : list byte) (flags : Z) :
  18 <= Z.of_nat (length gz) < 2 ^ 64 ->
  header_fixed gz = Ret flags ->
  Z.land flags 4 = 0 -> Z.land flags 8 = 0 ->
  Z.land flags 16 = 0 -> Z.land flags 2 = 0 ->
  exists bs,
    wf_bitstream bs /\ bitpos bs = 0
    /\ source bs = skipn 10 gz
    /\ source_len bs = Z.of_nat (length gz) - 18
    /\ parse_header gz = Ret 10
    /\ main_with tree build sym fuel gz
       = (_ <- blocks_loop tree build sym fuel bs ;; Ret tt).
Proof.
  intros Hlen Hfix H4 H8 H16 H2.
  assert (Hp : parse_header gz = Ret 10).
  { unfold parse_header, skip_extra, skip_string, skip_hcrc.
    rewrite Hfix. cbn [bind]. rewrite H4. cbn [Z.eqb bind].
    rewrite H8. cbn [Z.eqb bind]. rewrite H16. cbn [Z.eqb bind].
    rewrite H2. reflexivity. }
  assert (Hs : size_t (Z.of_nat (length gz) - 10 - 8) = Z.of_nat (length gz) - 18).
  { unfold size_t. rewrite Z.mod_small by lia. lia. }
  destruct (bitstream_init_spec (skipn 10 gz) (Z.of_nat (length gz) - 18))
    as (bs & Hi & Hwf & Hpos & Hsrc & Hsl).
  - rewrite length_skipn. lia.
  - lia.
  - lia.
  - rewrite length_skipn.
    pose proof (Z.mod_pos_bound (Z.of_nat (length gz) - 18) 2 eq_refl). lia.
  - exists bs. conjs; try assumption.
    apply main_with_from with (off := 10); [exact Hp|].
    change (Z.to_nat 10) with 10%nat. rewrite Hs. exact Hi.
Qed.

Lemma main_payload_without_optional_fields_witness :
  18 <= Z.of_nat (length gz_stored) < 2 ^ 64
  /\ header_fixed gz_stored = Ret 0
  /\ Z.land 0 4 = 0 /\ Z.land 0 8 = 0 /\ Z.land 0 16 = 0 /\ Z.land 0 2 = 0
  /\ exists bs,
      wf_bitstream bs /\ bitpos bs = 0
      /\ source bs = skipn 10 gz_stored
      /\ source_len bs = Z.of_nat (length gz_stored) - 18
      /\ parse_header gz_stored = Ret 10
      /\ main 7 gz_stored
         = (_ <- blocks_loop HuffTree init_hufftree readsym 7 bs ;; Ret tt).
Proof.
  assert (Hl : 18 <= Z.of_nat (length gz_stored) < 2 ^ 64)
    by (split; [vm_compute; discriminate | vm_compute; reflexivity]).
  assert (Hf : header_fixed gz_stored = Ret 0) by reflexivity.
  assert (H4 : Z.land 0 4 = 0) by reflexivity.
  assert (H8 : Z.land 0 8 = 0) by reflexivity.
  assert (H16 : Z.land 0 16 = 0) by reflexivity.
  assert (H2 : Z.land 0 2 = 0) by reflexivity.
  conjs; try assumption; try apply Hl.
  exact (main_payload_without_optional_fields HuffTree init_hufftree readsym 7
           gz_stored 0 Hl Hf H4 H8 H16 H2).
Defined.

(** X12: the extra size is not compared with the file size.  When FEXTRA
    is set and the extra field would end at or after the end of the file,
    every later step reads at that offset, so the run ends in an access
    outside the file buffer, whatever the other flags and the Huffman
    routines are. *)
Theorem main_extra_field_past_end
        (tree : Type) (build : list Z -> Z -> outcome tree)
        (sym : tree -> Bitstream -> outcome (Z * Bitstream))
        (fuel : nat) (gz : list byte) (flags : Z) :
  header_fixed gz = Ret flags ->
  Z.land flags 4 <> 0 ->
  14 <= Z.of_nat (length gz) ->
  le32_at gz 10 + 4 < 2 ^ 32 ->
  Z.of_nat (length gz) <= 14 + le32_at gz 10 ->
  main_with tree build sym fuel gz = Undef.
Proof.
  intros Hfix Hflag Hlen Hsmall Hfar.
  pose proof (le32_at_range gz 10) as He.
  set (off := 14 + le32_at gz 10) in *.
  assert (Hex : skip_extra gz flags 10 = Ret off).
  { unfold skip_extra.
    destruct (Z.eqb_spec (Z.land flags 4) 0); [contradiction|].
    rewrite little_uint32t_in by lia. cbn [bind]. f_equal.
    unfold size_t, uint32_t. rewrite (Z.mod_small (4 + le32_at gz 10)) by lia.
    rewrite Z.mod_small by lia. unfold off. lia. }
  assert (Hstr : forall mask o, off <= o ->
             skip_string gz flags mask o = Undef \/ skip_string gz flags mask o = Ret o).
  { intros mask o Ho. unfold skip_string.
    destruct (Z.land flags mask =? 0); [right; reflexivity|].
    left. unfold strlen. rewrite skipn_all2 by lia. reflexivity. }
  assert (Hcrc : forall o, off <= o -> skip_hcrc gz flags o = Undef \/ skip_hcrc gz flags o = Ret o).
  { intros o Ho. unfold skip_hcrc.
    destruct (Z.land flags 2 =? 0); [right; reflexivity|].
    left. unfold little_uint16t, load8. rewrite in_range_false by lia. reflexivity. }
  unfold main_with, parse_header. rewrite Hfix. cbn [bind]. rewrite Hex. cbn [bind].
  destruct (Hstr 8 off ltac:(lia)) as [-> | ->]; [reflexivity|]. cbn [bind].
  destruct (Hstr 16 off ltac:(lia)) as [-> | ->]; [reflexivity|]. cbn [bind].
  destruct (Hcrc off ltac:(lia)) as [-> | ->]; [reflexivity|]. cbn [bind].
  rewrite skipn_all2 by lia. reflexivity.
Qed.

Lemma main_extra_field_past_end_witness :
  header_fixed gz_extra_far = Ret 4
  /\ Z.land 4 4 <> 0
  /\ 14 <= Z.of_nat (length gz_extra_far)
  /\ le32_at gz_extra_far 10 + 4 < 2 ^ 32
  /\ Z.of_nat (length gz_extra_far) <= 14 + le32_at gz_extra_far 10
  /\ main 9 gz_extra_far = Undef.
Proof.
  assert (H1 : header_fixed gz_extra_far = Ret 4) by reflexivity.
  assert (H2 : Z.land 4 4 <> 0) by (vm_compute; discriminate).
  assert (H3 : 14 <= Z.of_nat (length gz_extra_far)) by (vm_compute; discriminate).
  assert (H4 : le32_at gz_extra_far 10 + 4 < 2 ^ 32) by (vm_compute; reflexivity).
  assert (H5 : Z.of_nat (length gz_extra_far) <= 14 + le32_at gz_extra_far 10)
    by (vm_compute; discriminate).
  conjs; try assumption.
  exact (main_extra_field_past_end HuffTree init_hufftree readsym 9 gz_extra_far 4
           H1 H2 H3 H4 H5).
Defined.

(** ** Block types *)

(** X13: a block whose two type bits are 11 ends the run with the fatal
    error "invalid block" as soon as the type field is read, whatever the
    Huffman routines are. *)
Theorem reserved_block_is_fatal
        (tree : Type) (build : list Z -> Z -> outcome tree)
        (sym : tree -> Bitstream -> outcome (Z * Bitstream))
        (fuel : nat) (bs : Bitstream) :
  wf_bitstream bs ->
  bitpos bs + 3 <= 8 * source_len bs ->
  stream_bit (source bs) (bitpos bs + 1) = 1 ->
  stream_bit (source bs) (bitpos bs + 2) = 1 ->
  block tree build sym fuel bs = Fatal "invalid block".
Proof.
  intros Hwf Hend Hb1 Hb2. unfold block, block_trees.
  destruct (getbit_spec bs Hwf) as (bs1 & Hg1 & Hwf1 & Hpos1 & Hsrc1 & Hsl1); [lia|].
  rewrite Hg1. cbn [bind].
  destruct (getbits_spec bs1 2 Hwf1) as (bs2 & Hg2 & _); [lia | lia |].
  rewrite Hg2. cbn [bind].
  rewrite bits_at_2, Hsrc1, Hpos1.
  replace (bitpos bs + 1 + 1) with (bitpos bs + 2) by lia.
  rewrite Hb1, Hb2. reflexivity.
Qed.

Lemma reserved_block_is_fatal_witness :
  wf_bitstream bs_reserved
  /\ bitpos bs_reserved + 3 <= 8 * source_len bs_reserved
  /\ stream_bit (source bs_reserved) (bitpos bs_reserved + 1) = 1
  /\ stream_bit (source bs_reserved) (bitpos bs_reserved + 2) = 1
  /\ block HuffTree init_hufftree readsym 0 bs_reserved = Fatal "invalid block".
Proof.
  assert (Hwf : wf_bitstream bs_reserved).
  { constructor; cbn [bs_reserved curbit curword curword_val source source_len].
    - lia.
    - split; [lia | reflexivity].
    - split; [lia | reflexivity].
    - vm_compute. discriminate.
    - intros _. reflexivity. }
  assert (H3 : bitpos bs_reserved + 3 <= 8 * source_len bs_reserved)
    by (vm_compute; discriminate).
  assert (H1 : stream_bit (source bs_reserved) (bitpos bs_reserved + 1) = 1) by reflexivity.
  assert (H2 : stream_bit (source bs_reserved) (bitpos bs_reserved + 2) = 1) by reflexivity.
  conjs; try assumption.
  exact (reserved_block_is_fatal HuffTree init_hufftree readsym 0 bs_reserved Hwf H3 H1 H2).
Defined.

(** X14: in a block whose type bits are 01 nothing is read after the three
    header bits before the first symbol: the literal/length tree is built
    from the 288 fixed lengths (8 for 0..143, 9 for 144..255, 7 for
    256..279, 8 for 280..287) and the distance tree from the 30 lengths 5
    that follow them in the same array. *)
Theorem fixed_block_trees
        (tree : Type) (build : list Z -> Z -> outcome tree)
        (sym : tree -> Bitstream -> outcome (Z * Bitstream))
        (bs : Bitstream) :
  wf_bitstream bs ->
  bitpos bs + 3 <= 8 * source_len bs ->
  stream_bit (source bs) (bitpos bs + 1) = 1 ->
  stream_bit (source bs) (bitpos bs + 2) = 0 ->
  exists bs2,
    bitpos bs2 = bitpos bs + 3
    /\ source bs2 = source bs /\ source_len bs2 = source_len bs
    /\ wf_bitstream bs2
    /\ block_trees tree build sym bs
       = (littree <- build (fixed_literal_lengths ++ fixed_distance_lengths) 288 ;;
          disttree <- build fixed_distance_lengths 30 ;;
          Ret (stream_bit (source bs) (bitpos bs), littree, disttree, bs2)).
Proof.
  intros Hwf Hend Hb1 Hb2.
  destruct (getbit_spec bs Hwf) as (bs1 & Hg1 & Hwf1 & Hpos1 & Hsrc1 & Hsl1); [lia|].
  destruct (getbits_spec bs1 2 Hwf1) as (bs2 & Hg2 & Hwf2 & Hpos2 & Hsrc2 & Hsl2);
    [lia | lia |].
  rewrite bits_at_2, Hsrc1, Hpos1 in Hg2.
  replace (bitpos bs + 1 + 1) with (bitpos bs + 2) in Hg2 by lia.
  rewrite Hb1, Hb2 in Hg2. change (1 + 2 * 0) with 1 in Hg2.
  exists bs2. conjs; try assumption; try congruence; try lia.
  unfold block_trees. rewrite Hg1. cbn [bind]. rewrite Hg2. cbn [bind].
  change (1 =? 3) with false. change (1 =? 0) with false. change (1 =? 2) with false.
  cbv iota.
  replace (fixed_lengths (repeat 0 (288 + 30)))
    with (@Ret (list Z * Z * Z)
               (fixed_literal_lengths ++ fixed_distance_lengths, 288, 30))
    by (vm_compute; reflexivity).
  cbn [bind].
  replace (skipn (Z.to_nat 288) (fixed_literal_lengths ++ fixed_distance_lengths))
    with fixed_distance_lengths by (vm_compute; reflexivity).
  reflexivity.
Qed.

Lemma fixed_block_trees_witness :
  wf_bitstream bs_empty
  /\ bitpos bs_empty + 3 <= 8 * source_len bs_empty
  /\ stream_bit (source bs_empty) (bitpos bs_empty + 1) = 1
  /\ stream_bit (source bs_empty) (bitpos bs_empty + 2) = 0
  /\ exists bs2,
      bitpos bs2 = bitpos bs_empty + 3
      /\ source bs2 = source bs_empty /\ source_len bs2 = source_len bs_empty
      /\ wf_bitstream bs2
      /\ block_trees HuffTree init_hufftree readsym bs_empty
         = (littree <- init_hufftree (fixed_literal_lengths ++ fixed_distance_lengths) 288 ;;
            disttree <- init_hufftree fixed_distance_lengths 30 ;;
            Ret (stream_bit (source bs_empty) (bitpos bs_empty), littree, disttree, bs2)).
Proof.
  assert (Hwf : wf_bitstream bs_empty).
  { constructor; cbn [bs_empty curbit curword curword_val source source_len].
    - lia.
    - split; [lia | reflexivity].
    - split; [lia | reflexivity].
    - vm_compute. discriminate.
    - intros _. reflexivity. }
  assert (H3 : bitpos bs_empty + 3 <= 8 * source_len bs_empty)
    by (vm_compute; discriminate).
  assert (H1 : stream_bit (source bs_empty) (bitpos bs_empty + 1) = 1) by reflexivity.
  assert (H2 : stream_bit (source bs_empty) (bitpos bs_empty + 2) = 0) by reflexivity.
  conjs; try assumption.
  exact (fixed_block_trees HuffTree init_hufftree readsym bs_empty Hwf H3 H1 H2).
Defined.

(** ** Runs written into the length array *)

Lemma fill_val_run (k : nat) :
  forall (j v : Z) (a : list Z),
    0 <= j -> j + Z.of_nat k <= Z.of_nat (length a) ->
    exists a',
      fill_val k j v a = Ret a'
      /\ length a' = length a
      /\ forall n : nat,
          nth n a' 0
          = if (Z.to_nat j <=? n)%nat && (n <? Z.to_nat j + k)%nat
            then v else nth n a 0.
Proof.
  induction k as [|k IH]; intros j v a Hj Hk; cbn [fill_val].
  - exists a. conjs; try reflexivity. intros n.
    destruct (Nat.leb_spec (Z.to_nat j) n); destruct (Nat.ltb_spec n (Z.to_nat j + 0));
      cbn [andb]; try reflexivity; lia.
  - unfold store. rewrite in_range_true by lia. cbn [bind].
    destruct (IH (j + 1) v (upd a (Z.to_nat j) v)) as (a' & Ha & Hl & Hn).
    + lia.
    + rewrite length_upd. lia.
    + exists a'. conjs; [exact Ha | rewrite Hl; apply length_upd |].
      intros n. rewrite Hn.
      destruct (Nat.leb_spec (Z.to_nat (j + 1)) n);
        destruct (Nat.ltb_spec n (Z.to_nat (j + 1) + k));
        destruct (Nat.leb_spec (Z.to_nat j) n);
        destruct (Nat.ltb_spec n (Z.to_nat j + S k));
        cbn [andb]; try reflexivity; try lia;
        first [ apply nth_upd_neq; lia
              | assert (n = Z.to_nat j) by lia; subst n; apply nth_upd_eq; lia ].
Qed.

Lemma fill_val_overrun (k : nat) :
  forall (j v : Z) (a : list Z),
    0 <= j <= Z.of_nat (length a) -> Z.of_nat (length a) < j + Z.of_nat k ->
    fill_val k j v a = Undef.
Proof.
  induction k as [|k IH]; intros j v a Hj Hk; [lia|]. cbn [fill_val]. unfold store.
  destruct (Z.eq_dec j (Z.of_nat (length a))) as [E|NE].
  - rewrite in_range_false by lia. reflexivity.
  - rewrite in_range_true by lia. cbn [bind]. apply IH; rewrite length_upd; lia.
Qed.

Lemma fill_prev_run (k : nat) :
  forall (j i : Z) (a : list Z),
    1 <= i <= j -> j + Z.of_nat k <= Z.of_nat (length a) ->
    exists a',
      fill_prev k j i a = Ret a'
      /\ length a' = length a
      /\ forall n : nat,
          nth n a' 0
          = if (Z.to_nat j <=? n)%nat && (n <? Z.to_nat j + k)%nat
            then nth (Z.to_nat (i - 1)) a 0 else nth n a 0.
Proof.
  induction k as [|k IH]; intros j i a Hi Hk; cbn [fill_prev].
  - exists a. conjs; try reflexivity. intros n.
    destruct (Nat.leb_spec (Z.to_nat j) n); destruct (Nat.ltb_spec n (Z.to_nat j + 0));
      cbn [andb]; try reflexivity; lia.
  - unfold load, store. rewrite !in_range_true by lia. cbn [bind].
    destruct (IH (j + 1) i (upd a (Z.to_nat j) (nth (Z.to_nat (i - 1)) a 0)))
      as (a' & Ha & Hl & Hn).
    + lia.
    + rewrite length_upd. lia.
    + exists a'. conjs; [exact Ha | rewrite Hl; apply length_upd |].
      intros n. rewrite Hn.
      rewrite (nth_upd_neq a (Z.to_nat j) (Z.to_nat (i - 1))) by lia.
      destruct (Nat.leb_spec (Z.to_nat (j + 1)) n);
        destruct (Nat.ltb_spec n (Z.to_nat (j + 1) + k));
        destruct (Nat.leb_spec (Z.to_nat j) n);
        destruct (Nat.ltb_spec n (Z.to_nat j + S k));
        cbn [andb]; try reflexivity; try lia;
        first [ apply nth_upd_neq; lia
              | assert (n = Z.to_nat j) by lia; subst n; apply nth_upd_eq; lia ].
Qed.

Lemma fill_prev_overrun (k : nat) :
  forall (j i : Z) (a : list Z),
    0 <= j <= Z.of_nat (length a) -> Z.of_nat (length a) < j + Z.of_nat k ->
    fill_prev k j i a = Undef.
Proof.
  induction k as [|k IH]; intros j i a Hj Hk; [lia|]. cbn [fill_prev].
  unfold load. destruct (in_range a (i - 1)); [|reflexivity]. cbn [bind]. unfold store.
  destruct (Z.eq_dec j (Z.of_nat (length a))) as [E|NE].
  - rewrite in_range_false by lia. reflexivity.
  - rewrite in_range_true by lia. cbn [bind]. apply IH; rewrite length_upd; lia.
Qed.

Lemma fill_prev_no_previous (k : nat) (j i : Z) (a : list Z) :
  i <= 0 -> fill_prev (S k) j i a = Undef.
Proof.
  intros Hi. cbn [fill_prev]. unfold load. rewrite in_range_false by lia. reflexivity.
Qed.

(** ** One round of the code-length loop *)

(** X15: symbol 16 with a previous entry: two more bits are read, and the
    entry before the current slot is copied into the next 3 to 6 slots
    (3 plus the two bits); the rest of the array is left as it is and the
    loop goes on behind the run. *)
Theorem repeat_16_copies_previous
        (tree : Type) (sym : tree -> Bitstream -> outcome (Z * Bitstream))
        (fuel : nat) (pretree : tree) (bs bs1 bs2 : Bitstream) (x i : Z)
        (lengths : list Z) (num_lengths : Z) :
  sym pretree bs = Ret (16, bs1) ->
  getbits bs1 2 = Ret (x, bs2) ->
  1 <= i < num_lengths ->
  i + (3 + x) <= Z.of_nat (length lengths) ->
  0 <= x <= 3
  /\ exists l1,
      length l1 = length lengths
      /\ (forall n : nat,
            nth n l1 0
            = if (Z.to_nat i <=? n)%nat && (n <? Z.to_nat i + Z.to_nat (3 + x))%nat
              then nth (Z.to_nat (i - 1)) lengths 0 else nth n lengths 0)
      /\ pretree_loop tree sym (S fuel) pretree num_lengths i lengths bs
         = pretree_loop tree sym fuel pretree num_lengths (i + (3 + x)) l1 bs2.
Proof.
  intros Hs Hg Hi Hlen.
  assert (Hx : 0 <= x < 2 ^ 2).
  { unfold getbits in Hg. apply getbits_loop_range in Hg; [|lia|change (2 ^ 0) with 1; lia].
    exact Hg. }
  change (2 ^ 2) with 4 in Hx. split; [lia|].
  destruct (fill_prev_run (Z.to_nat (3 + x)) i i lengths) as (l1 & Hf & Hl & Hn);
    [lia | lia |].
  exists l1. conjs; [exact Hl | exact Hn |].
  cbn [pretree_loop]. destruct (Z.ltb_spec i num_lengths); [|lia].
  rewrite Hs. cbn [bind]. change (16 <=? 15) with false. change (16 =? 16) with true.
  cbv iota. rewrite Hg. cbn [bind]. cbv zeta. rewrite Hf. reflexivity.
Qed.

Lemma repeat_16_copies_previous_witness :
  Canonical.decode pretree_repeat_first bs_repeat_first_29
  = Ret (16, mkBitstream 14 2 0x0122 payload_repeat_first 6)
  /\ getbits (mkBitstream 14 2 0x0122 payload_repeat_first 6) 2
     = Ret (0, mkBitstream 0 4 0 payload_repeat_first 6)
  /\ 1 <= 1 < 258
  /\ 1 + (3 + 0) <= Z.of_nat (length (repeat 7 318))
  /\ 0 <= 0 <= 3
  /\ exists l1,
      length l1 = length (repeat 7 318)
      /\ (forall n : nat,
            nth n l1 0
            = if (Z.to_nat 1 <=? n)%nat && (n <? Z.to_nat 1 + Z.to_nat (3 + 0))%nat
              then nth (Z.to_nat (1 - 1)) (repeat 7 318) 0 else nth n (repeat 7 318) 0)
      /\ pretree_loop Canonical.Tree Canonical.decode 1 pretree_repeat_first 258 1
           (repeat 7 318) bs_repeat_first_29
         = pretree_loop Canonical.Tree Canonical.decode 0 pretree_repeat_first 258
             (1 + (3 + 0)) l1 (mkBitstream 0 4 0 payload_repeat_first 6).
Proof.
  assert (H1 : Canonical.decode pretree_repeat_first bs_repeat_first_29
               = Ret (16, mkBitstream 14 2 0x0122 payload_repeat_first 6)) by reflexivity.
  assert (H2 : getbits (mkBitstream 14 2 0x0122 payload_repeat_first 6) 2
               = Ret (0, mkBitstream 0 4 0 payload_repeat_first 6)) by reflexivity.
  assert (H3 : 1 <= 1 < 258) by lia.
  assert (H4 : 1 + (3 + 0) <= Z.of_nat (length (repeat 7 318)))
    by (vm_compute; discriminate).
  split; [exact H1|]. split; [exact H2|]. split; [exact H3|]. split; [exact H4|].
  exact (repeat_16_copies_previous Canonical.Tree Canonical.decode 0
           pretree_repeat_first _ _ _ 0 1 (repeat 7 318) 258 H1 H2 H3 H4).
Defined.

(** X16: symbol 17: three more bits are read and the next 3 to 10 slots
    (3 plus the three bits) are set to 0; the rest of the array is left as
    it is and the loop goes on behind the run. *)
Theorem repeat_17_writes_zeros
        (tree : Type) (sym : tree -> Bitstream -> outcome (Z * Bitstream))
        (fuel : nat) (pretree : tree) (bs bs1 bs2 : Bitstream) (x i : Z)
        (lengths : list Z) (num_lengths : Z) :
  sym pretree bs = Ret (17, bs1) ->
  getbits bs1 3 = Ret (x, bs2) ->
  0 <= i < num_lengths ->
  i + (3 + x) <= Z.of_nat (length lengths) ->
  0 <= x <= 7
  /\ exists l1,
      length l1 = length lengths
      /\ (forall n : nat,
            nth n l1 0
            = if (Z.to_nat i <=? n)%nat && (n <? Z.to_nat i + Z.to_nat (3 + x))%nat
              then 0 else nth n lengths 0)
      /\ pretree_loop tree sym (S fuel) pretree num_lengths i lengths bs
         = pretree_loop tree sym fuel pretree num_lengths (i + (3 + x)) l1 bs2.
Proof.
  intros Hs Hg Hi Hlen.
  assert (Hx : 0 <= x < 2 ^ 3).
  { unfold getbits in Hg. apply getbits_loop_range in Hg; [|lia|change (2 ^ 0) with 1; lia].
    exact Hg. }
  change (2 ^ 3) with 8 in Hx. split; [lia|].
  destruct (fill_val_run (Z.to_nat (3 + x)) i 0 lengths) as (l1 & Hf & Hl & Hn);
    [lia | lia |].
  exists l1. conjs; [exact Hl | exact Hn |].
  cbn [pretree_loop]. destruct (Z.ltb_spec i num_lengths); [|lia].
  rewrite Hs. cbn [bind]. change (17 <=? 15) with false. change (17 =? 16) with false.
  change (17 =? 17) with true. cbv iota. rewrite Hg. cbn [bind]. cbv zeta.
  rewrite Hf. reflexivity.
Qed.

(** X17: every symbol above 17 is taken for symbol 18, also one outside the
    19-symbol alphabet: seven more bits are read and the next 11 to 138
    slots (11 plus the seven bits) are set to 0. *)
Theorem repeat_18_writes_zeros
        (tree : Type) (sym : tree -> Bitstream -> outcome (Z * Bitstream))
        (fuel : nat) (pretree : tree) (bs bs1 bs2 : Bitstream) (code x i : Z)
        (lengths : list Z) (num_lengths : Z) :
  sym pretree bs = Ret (code, bs1) ->
  17 < code ->
  getbits bs1 7 = Ret (x, bs2) ->
  0 <= i < num_lengths ->
  i + (11 + x) <= Z.of_nat (length lengths) ->
  0 <= x <= 127
  /\ exists l1,
      length l1 = length lengths
      /\ (forall n : nat,
            nth n l1 0
            = if (Z.to_nat i <=? n)%nat && (n <? Z.to_nat i + Z.to_nat (11 + x))%nat
              then 0 else nth n lengths 0)
      /\ pretree_loop tree sym (S fuel) pretree num_lengths i lengths bs
         = pretree_loop tree sym fuel pretree num_lengths (i + (11 + x)) l1 bs2.
Proof.
  intros Hs Hc Hg Hi Hlen.
  assert (Hx : 0 <= x < 2 ^ 7).
  { unfold getbits in Hg. apply getbits_loop_range in Hg; [|lia|change (2 ^ 0) with 1; lia].
    exact Hg. }
  change (2 ^ 7) with 128 in Hx. split; [lia|].
  destruct (fill_val_run (Z.to_nat (11 + x)) i 0 lengths) as (l1 & Hf & Hl & Hn);
    [lia | lia |].
  exists l1. conjs; [exact Hl | exact Hn |].
  cbn [pretree_loop]. destruct (Z.ltb_spec i num_lengths); [|lia].
  rewrite Hs. cbn [bind].
  destruct (Z.leb_spec code 15); [lia|].
  destruct (Z.eqb_spec code 16); [lia|].
  destruct (Z.eqb_spec code 17); [lia|].
  rewrite Hg. cbn [bind]. cbv zeta. rewrite Hf. reflexivity.
Qed.

Lemma repeat_17_writes_zeros_witness :
  Canonical.decode pretree_repeat_first (bs_sym17 0) = Ret (17, bs_sym17 2)
  /\ getbits (bs_sym17 2) 3 = Ret (5, bs_sym17 5)
  /\ 0 <= 0 < 258
  /\ 0 + (3 + 5) <= Z.of_nat (length (repeat 7 318))
  /\ 0 <= 5 <= 7
  /\ exists l1,
      length l1 = length (repeat 7 318)
      /\ (forall n : nat,
            nth n l1 0
            = if (Z.to_nat 0 <=? n)%nat && (n <? Z.to_nat 0 + Z.to_nat (3 + 5))%nat
              then 0 else nth n (repeat 7 318) 0)
      /\ pretree_loop Canonical.Tree Canonical.decode 1 pretree_repeat_first 258 0
           (repeat 7 318) (bs_sym17 0)
         = pretree_loop Canonical.Tree Canonical.decode 0 pretree_repeat_first 258
             (0 + (3 + 5)) l1 (bs_sym17 5).
Proof.
  assert (H1 : Canonical.decode pretree_repeat_first (bs_sym17 0) = Ret (17, bs_sym17 2))
    by reflexivity.
  assert (H2 : getbits (bs_sym17 2) 3 = Ret (5, bs_sym17 5)) by reflexivity.
  assert (H3 : 0 <= 0 < 258) by lia.
  assert (H4 : 0 + (3 + 5) <= Z.of_nat (length (repeat 7 318)))
    by (vm_compute; discriminate).
  split; [exact H1|]. split; [exact H2|]. split; [exact H3|]. split; [exact H4|].
  exact (repeat_17_writes_zeros Canonical.Tree Canonical.decode 0
           pretree_repeat_first _ _ _ 5 0 (repeat 7 318) 258 H1 H2 H3 H4).
Defined.

Lemma repeat_18_writes_zeros_witness :
  Canonical.decode pretree_repeat_first (bs_sym18 0) = Ret (18, bs_sym18 2)
  /\ 17 < 18
  /\ getbits (bs_sym18 2) 7 = Ret (0, bs_sym18 9)
  /\ 0 <= 0 < 258
  /\ 0 + (11 + 0) <= Z.of_nat (length (repeat 7 318))
  /\ 0 <= 0 <= 127
  /\ exists l1,
      length l1 = length (repeat 7 318)
      /\ (forall n : nat,
            nth n l1 0
            = if (Z.to_nat 0 <=? n)%nat && (n <? Z.to_nat 0 + Z.to_nat (11 + 0))%nat
              then 0 else nth n (repeat 7 318) 0)
      /\ pretree_loop Canonical.Tree Canonical.decode 1 pretree_repeat_first 258 0
           (repeat 7 318) (bs_sym18 0)
         = pretree_loop Canonical.Tree Canonical.decode 0 pretree_repeat_first 258
             (0 + (11 + 0)) l1 (bs_sym18 9).
Proof.
  assert (H1 : Canonical.decode pretree_repeat_first (bs_sym18 0) = Ret (18, bs_sym18 2))
    by reflexivity.
  assert (Hc : 17 < 18) by lia.
  assert (H2 : getbits (bs_sym18 2) 7 = Ret (0, bs_sym18 9)) by reflexivity.
  assert (H3 : 0 <= 0 < 258) by lia.
  assert (H4 : 0 + (11 + 0) <= Z.of_nat (length (repeat 7 318)))
    by (vm_compute; discriminate).
  split; [exact H1|]. split; [exact Hc|]. split; [exact H2|].
  split; [exact H3|]. split; [exact H4|].
  exact (repeat_18_writes_zeros Canonical.Tree Canonical.decode 0
           pretree_repeat_first _ _ _ 18 0 0 (repeat 7 318) 258 H1 Hc H2 H3 H4).
Defined.

(** ** The code-length loop as a whole *)

Section PretreeLoopFrame.

Variable tree : Type.
Variable sym : tree -> Bitstream -> outcome (Z * Bitstream).

Lemma pretree_loop_frame (fuel : nat) :
  forall (pretree : tree) (n i : Z) (lengths : list Z) (bs : Bitstream)
         (l : list Z) (i' : Z) (bs' : Bitstream),
    pretree_loop tree sym fuel pretree n i lengths bs = Ret (l, i', bs') ->
    0 <= i <= Z.of_nat (length lengths) ->
    length l = length lengths
    /\ i <= i' <= Z.of_nat (length lengths)
    /\ n <= i'
    /\ forall j : nat,
        (j < Z.to_nat i \/ Z.to_nat i' <= j)%nat -> nth j l 0 = nth j lengths 0.
Proof.
  induction fuel as [|fuel IH]; intros pretree n i lengths bs l i' bs' H Hi;
    cbn [pretree_loop] in H; destruct (Z.ltb_spec i n) as [Hlt|Hge];
    try discriminate H;
    try (injection H as <- <- <-; conjs; try reflexivity; try lia; intros; reflexivity).
  destruct (sym pretree bs) as [[code bs1]|m| |]; cbn [bind] in H; try discriminate H.
  assert (Hrun : forall (k : nat) (v : Z) (l1 : list Z) (bs2 : Bitstream),
             (0 < k)%nat ->
             length l1 = length lengths ->
             i + Z.of_nat k <= Z.of_nat (length lengths) ->
             (forall m : nat,
                 nth m l1 0
                 = if (Z.to_nat i <=? m)%nat && (m <? Z.to_nat i + k)%nat
                   then v else nth m lengths 0) ->
             pretree_loop tree sym fuel pretree n (i + Z.of_nat k) l1 bs2
             = Ret (l, i', bs') ->
             length l = length lengths
             /\ i <= i' <= Z.of_nat (length lengths)
             /\ n <= i'
             /\ forall j : nat,
                 (j < Z.to_nat i \/ Z.to_nat i' <= j)%nat -> nth j l 0 = nth j lengths 0).
  { intros k v l1 bs2 Hk Hl1 Hfit Hn1 Hrec.
    destruct (IH _ _ _ _ _ _ _ _ Hrec) as (Hl & Hii & Hn & Hj); [lia|].
    conjs; try lia.
    intros j Hjj. rewrite Hj by lia. rewrite Hn1.
    destruct (Nat.leb_spec (Z.to_nat i) j); destruct (Nat.ltb_spec j (Z.to_nat i + k));
      cbn [andb]; try reflexivity; lia. }
  destruct (code <=? 15).
  { unfold store in H.
    destruct (Z.lt_ge_cases i (Z.of_nat (length lengths))) as [Hin|Hout].
    - rewrite in_range_true in H by lia. cbn [bind] in H.
      apply (Hrun 1%nat code (upd lengths (Z.to_nat i) code) bs1); try lia.
      + apply length_upd.
      + intros m.
        destruct (Nat.leb_spec (Z.to_nat i) m); destruct (Nat.ltb_spec m (Z.to_nat i + 1));
          cbn [andb];
          first [ apply nth_upd_neq; lia
                | assert (m = Z.to_nat i) by lia; subst m; apply nth_upd_eq; lia ].
      + exact H.
    - rewrite in_range_false in H by lia. discriminate H. }
  destruct (code =? 16).
  { destruct (getbits bs1 2) as [[x bs2]|m| |] eqn:Hg; cbn [bind] in H; try discriminate H.
    apply getbits_nonneg in Hg. cbv zeta in H.
    destruct (Z.to_nat (3 + x)) as [|k] eqn:Hk; [lia|].
    destruct (Z.le_gt_cases i 0) as [Hi0|Hi1].
    { rewrite fill_prev_no_previous in H by lia. discriminate H. }
    destruct (Z.le_gt_cases (i + Z.of_nat (S k)) (Z.of_nat (length lengths))) as [Hfit|Hover].
    - destruct (fill_prev_run (S k) i i lengths) as (l1 & Hf & Hl1 & Hn1); try lia.
      rewrite Hf in H. cbn [bind] in H.
      apply (Hrun (S k) (nth (Z.to_nat (i - 1)) lengths 0) l1 bs2); try lia; try assumption.
      replace (i + Z.of_nat (S k)) with (i + (3 + x)) by lia. exact H.
    - rewrite fill_prev_overrun in H by lia. discriminate H. }
  destruct (code =? 17).
  { destruct (getbits bs1 3) as [[x bs2]|m| |] eqn:Hg; cbn [bind] in H; try discriminate H.
    apply getbits_nonneg in Hg. cbv zeta in H.
    destruct (Z.to_nat (3 + x)) as [|k] eqn:Hk; [lia|].
    destruct (Z.le_gt_cases (i + Z.of_nat (S k)) (Z.of_nat (length lengths))) as [Hfit|Hover].
    - destruct (fill_val_run (S k) i 0 lengths) as (l1 & Hf & Hl1 & Hn1); try lia.
      rewrite Hf in H. cbn [bind] in H.
      apply (Hrun (S k) 0 l1 bs2); try lia; try assumption.
      replace (i + Z.of_nat (S k)) with (i + (3 + x)) by lia. exact H.
    - rewrite fill_val_overrun in H by lia. discriminate H. }
  destruct (getbits bs1 7) as [[x bs2]|m| |] eqn:Hg; cbn [bind] in H; try discriminate H.
  apply getbits_nonneg in Hg. cbv zeta in H.
  destruct (Z.to_nat (11 + x)) as [|k] eqn:Hk; [lia|].
  destruct (Z.le_gt_cases (i + Z.of_nat (S k)) (Z.of_nat (length lengths))) as [Hfit|Hover].
  - destruct (fill_val_run (S k) i 0 lengths) as (l1 & Hf & Hl1 & Hn1); try lia.
    rewrite Hf in H. cbn [bind] in H.
    apply (Hrun (S k) 0 l1 bs2); try lia; try assumption.
    replace (i + Z.of_nat (S k)) with (i + (11 + x)) by lia. exact H.
  - rewrite fill_val_overrun in H by lia. discriminate H.
Qed.

End PretreeLoopFrame.

(** X18: whatever the tree reader delivers, when [deflate_decode_pretree]
    returns, the array has its length, the final index [i] is at least
    [num_lengths] and at most the array length, and no slot at or behind
    that index has been changed: a return means that every write stayed
    inside the array. *)
Theorem deflate_decode_pretree_frame
        (tree : Type) (sym : tree -> Bitstream -> outcome (Z * Bitstream))
        (pretree : tree) (bs bs' : Bitstream) (lengths l : list Z)
        (num_lengths i' : Z) :
  deflate_decode_pretree_with tree sym pretree bs lengths num_lengths
  = Ret (l, i', bs') ->
  length l = length lengths
  /\ num_lengths <= i'
  /\ 0 <= i' <= Z.of_nat (length lengths)
  /\ forall j : nat, (Z.to_nat i' <= j)%nat -> nth j l 0 = nth j lengths 0.
Proof.
  intros H. unfold deflate_decode_pretree_with in H.
  apply pretree_loop_frame in H; [|lia].
  destruct H as (Hl & Hi & Hn & Hj). conjs; try assumption; try lia.
  intros j Hjj. apply Hj. lia.
Qed.

Lemma deflate_decode_pretree_frame_witness :
  deflate_decode_pretree_with Canonical.Tree Canonical.decode pretree_overrun
    bs_overrun_29 (repeat 5 318) 258
  = Ret (repeat 0 276 ++ repeat 5 42, 276, mkBitstream 13 4 0x1fff payload_overrun 6)
  /\ length (repeat 0 276 ++ repeat 5 42) = length (repeat 5 318)
  /\ 258 <= 276
  /\ 0 <= 276 <= Z.of_nat (length (repeat 5 318))
  /\ forall j : nat,
      (Z.to_nat 276 <= j)%nat ->
      nth j (repeat 0 276 ++ repeat 5 42) 0 = nth j (repeat 5 318) 0.
Proof.
  assert (H : deflate_decode_pretree_with Canonical.Tree Canonical.decode pretree_overrun
                bs_overrun_29 (repeat 5 318) 258
              = Ret (repeat 0 276 ++ repeat 5 42, 276,
                     mkBitstream 13 4 0x1fff payload_overrun 6))
    by (vm_compute; reflexivity).
  split; [exact H|].
  exact (deflate_decode_pretree_frame Canonical.Tree Canonical.decode pretree_overrun
           bs_overrun_29 _ (repeat 5 318) _ 258 276 H).
Defined.

(** X19: the [while] loop of [deflate_decode_pretree] ends: [i] grows in
    every round, so after at most [num_lengths] rounds the call has
    returned or failed, whatever symbols and extra bits are read, provided
    each call of the tree reader ends. *)
Theorem deflate_decode_pretree_terminates
        (tree : Type) (sym : tree -> Bitstream -> outcome (Z * Bitstream))
        (pretree : tree) (bs : Bitstream) (lengths : list Z) (num_lengths : Z) :
  (forall t b, sym t b <> OutOfFuel) ->
  deflate_decode_pretree_with tree sym pretree bs lengths num_lengths <> OutOfFuel.
Proof.
  intros Hsym.
  exact (deflate_decode_pretree_bound tree sym Hsym pretree bs lengths num_lengths).
Qed.

Lemma deflate_decode_pretree_terminates_witness :
  (forall t b, readsym t b <> OutOfFuel)
  /\ deflate_decode_pretree mkHuffTree bs_repeat_first_29 (repeat 0 318) 258 <> OutOfFuel.
Proof.
  assert (H : forall t b, readsym t b <> OutOfFuel) by (intros t b; discriminate).
  split; [exact H|].
  exact (deflate_decode_pretree_terminates HuffTree readsym mkHuffTree
           bs_repeat_first_29 (repeat 0 318) 258 H).
Defined.

Lemma pretree_loop_readsym_overrun (fuel : nat) :
  forall (ht : HuffTree) (n i : Z) (lengths : list Z) (bs : Bitstream),
    0 <= i <= Z.of_nat (length lengths) -> Z.of_nat (length lengths) < n ->
    Z.of_nat (length lengths) - i < Z.of_nat fuel ->
    pretree_loop HuffTree readsym fuel ht n i lengths bs = Undef.
Proof.
  induction fuel as [|fuel IH]; intros ht n i lengths bs Hi Hn Hf; [lia|].
  cbn [pretree_loop]. destruct (Z.ltb_spec i n); [|lia].
  unfold readsym at 1. cbn [bind]. change (0 <=? 15) with true. cbv iota.
  unfold store.
  destruct (Z.eq_dec i (Z.of_nat (length lengths))) as [E|NE].
  - rewrite in_range_false by lia. reflexivity.
  - rewrite in_range_true by lia. cbn [bind]. apply IH; rewrite length_upd; lia.
Qed.

(** X20: in the program as it is, where [readsym] returns 0 for every call,
    [deflate_decode_pretree] reads no bit and sets exactly the first
    [num_lengths] slots of the array to 0, leaving the others as they
    are. *)
Theorem deflate_decode_pretree_all_zero
        (ht : HuffTree) (bs : Bitstream) (lengths : list Z) (n : Z) :
  0 <= n <= Z.of_nat (length lengths) ->
  exists l,
    deflate_decode_pretree ht bs lengths n = Ret (l, n, bs)
    /\ length l = length lengths
    /\ (forall j, (j < Z.to_nat n)%nat -> nth j l 0 = 0)
    /\ (forall j, (Z.to_nat n <= j)%nat -> nth j l 0 = nth j lengths 0).
Proof.
  intros Hn. apply deflate_decode_pretree_readsym. exact Hn.
Qed.

Lemma deflate_decode_pretree_all_zero_witness :
  0 <= 258 <= Z.of_nat (length (repeat 5 318))
  /\ exists l,
      deflate_decode_pretree mkHuffTree bs_repeat_first_29 (repeat 5 318) 258
      = Ret (l, 258, bs_repeat_first_29)
      /\ length l = length (repeat 5 318)
      /\ (forall j, (j < Z.to_nat 258)%nat -> nth j l 0 = 0)
      /\ (forall j, (Z.to_nat 258 <= j)%nat -> nth j l 0 = nth j (repeat 5 318) 0).
Proof.
  assert (H : 0 <= 258 <= Z.of_nat (length (repeat 5 318)))
    by (split; vm_compute; discriminate).
  split; [exact H|].
  exact (deflate_decode_pretree_all_zero mkHuffTree bs_repeat_first_29 (repeat 5 318) 258 H).
Defined.

(** X21: the length array has 288 + 30 entries, but a dynamic block can
    declare up to 288 + 32 lengths.  In the program as it is, a dynamic
    block with HLIT + HDIST > 60 makes [deflate_decode_pretree] write
    behind the end of the array. *)
Theorem dynamic_block_overflows_lengths (bs : Bitstream) :
  wf_bitstream bs ->
  stream_bit (source bs) (bitpos bs + 1) = 0 ->
  stream_bit (source bs) (bitpos bs + 2) = 1 ->
  bitpos bs + 17 + 3 * (bits_at (source bs) (bitpos bs + 13) 4 + 4)
  <= 8 * source_len bs ->
  60 < bits_at (source bs) (bitpos bs + 3) 5 + bits_at (source bs) (bitpos bs + 8) 5 ->
  block_trees HuffTree init_hufftree readsym bs = Undef.
Proof.
  intros Hwf Hb1 Hb2 Hend Hbig.
  pose proof (bits_at_range (source bs) (bitpos bs + 13) 4 ltac:(lia)) as Hc.
  destruct (getbit_spec bs Hwf) as (bs1 & Hg1 & Hwf1 & Hpos1 & Hsrc1 & Hsl1); [lia|].
  destruct (getbits_spec bs1 2 Hwf1) as (bs2 & Hg2 & Hwf2 & Hpos2 & Hsrc2 & Hsl2);
    [lia | lia |].
  rewrite bits_at_2, Hsrc1, Hpos1 in Hg2.
  replace (bitpos bs + 1 + 1) with (bitpos bs + 2) in Hg2 by lia.
  rewrite Hb1, Hb2 in Hg2. change (0 + 2 * 1) with 2 in Hg2.
  assert (Hp2 : bitpos bs2 = bitpos bs + 3) by lia.
  assert (Hs2 : source bs2 = source bs) by congruence.
  destruct (read_pretree_spec bs2 Hwf2)
    as (pl & bs4 & Hr & _).
  { rewrite Hp2, Hs2. replace (bitpos bs + 3 + 10) with (bitpos bs + 13) by lia. lia. }
  rewrite Hp2, Hs2 in Hr.
  replace (bitpos bs + 3 + 5) with (bitpos bs + 8) in Hr by lia.
  unfold block_trees. rewrite Hg1. cbn [bind]. rewrite Hg2. cbn [bind].
  change (2 =? 3) with false. change (2 =? 0) with false. change (2 =? 2) with true.
  cbv iota. unfold dynamic_lengths. rewrite Hr. cbn [bind].
  unfold init_hufftree at 1. cbn [bind].
  unfold deflate_decode_pretree_with.
  rewrite pretree_loop_readsym_overrun; [reflexivity | | | ];
    rewrite repeat_length; lia.
Qed.

Lemma dynamic_block_overflows_lengths_witness :
  wf_bitstream bs_320
  /\ stream_bit (source bs_320) (bitpos bs_320 + 1) = 0
  /\ stream_bit (source bs_320) (bitpos bs_320 + 2) = 1
  /\ bitpos bs_320 + 17 + 3 * (bits_at (source bs_320) (bitpos bs_320 + 13) 4 + 4)
     <= 8 * source_len bs_320
  /\ 60 < bits_at (source bs_320) (bitpos bs_320 + 3) 5
          + bits_at (source bs_320) (bitpos bs_320 + 8) 5
  /\ block_trees HuffTree init_hufftree readsym bs_320 = Undef.
Proof.
  assert (Hwf : wf_bitstream bs_320).
  { constructor; cbn [bs_320 curbit curword curword_val source source_len].
    - lia.
    - split; [lia | reflexivity].
    - split; [lia | reflexivity].
    - vm_compute. discriminate.
    - intros _. reflexivity. }
  assert (H1 : stream_bit (source bs_320) (bitpos bs_320 + 1) = 0) by reflexivity.
  assert (H2 : stream_bit (source bs_320) (bitpos bs_320 + 2) = 1) by reflexivity.
  assert (H3 : bitpos bs_320 + 17 + 3 * (bits_at (source bs_320) (bitpos bs_320 + 13) 4 + 4)
               <= 8 * source_len bs_320) by (vm_compute; discriminate).
  assert (H4 : 60 < bits_at (source bs_320) (bitpos bs_320 + 3) 5
                    + bits_at (source bs_320) (bitpos bs_320 + 8) 5)
    by (vm_compute; reflexivity).
  conjs; try assumption.
  exact (dynamic_block_overflows_lengths bs_320 Hwf H1 H2 H3 H4).
Defined.

(** ** The symbol loop and the end of a run *)

(** X22: the symbol loop has no normal exit.  The test [code != 256] comes
    after [code -= 257], and a [code] that is 256 then has indexed the
    29-entry length tables at 256 before; symbol 256 itself indexes them
    at -1.  So, whatever the Huffman routines are, no block is ever
    completed and [main] never returns: a run ends in a fatal error or an
    access outside an object, or does not end. *)
Theorem main_never_returns
        (tree : Type) (build : list Z -> Z -> outcome tree)
        (sym : tree -> Bitstream -> outcome (Z * Bitstream))
        (fuel : nat) :
  (forall littree disttree bs r,
      symbols_loop tree sym fuel littree disttree bs <> Ret r)
  /\ (forall gz, main_with tree build sym fuel gz <> Ret tt).
Proof.
  split.
  - intros lt dt bs r. apply symbols_loop_never_returns.
  - intros gz. apply main_with_never_returns.
Qed.

(** ** Match lengths and distances *)

Lemma getbits_below (bs bs' : Bitstream) (n v : Z) :
  0 <= n -> getbits bs n = Ret (v, bs') -> 0 <= v < 2 ^ n.
Proof.
  intros Hn H. unfold getbits in H.
  apply getbits_loop_range in H; [|lia|change (2 ^ 0) with 1; lia].
  rewrite Z2Nat.id in H by lia. exact H.
Qed.

Ltac eval_table_entries Hg :=
  match type of Hg with
  | getbits _ ?e = _ =>
      let v := eval vm_compute in e in change e with v in Hg
  end;
  match goal with
  | |- _ <= ?b + _ <= _ =>
      let v := eval vm_compute in b in change b with v
  end.

(** X23: every match length the symbol loop computes lies in 3..258: for
    each index [code] inside the tables, the base length plus whatever
    [getbits] returns for the extra-bit count of that index. *)
Theorem match_length_range (code base extra x : Z) (bs bs' : Bitstream) :
  load base_lengths code = Ret base ->
  load extra_len_bits code = Ret extra ->
  getbits bs extra = Ret (x, bs') ->
  3 <= base + x <= 258.
Proof.
  intros Hb He Hg.
  pose proof (load_in_range _ _ _ Hb) as Hr.
  change (length base_lengths) with 29%nat in Hr.
  unfold load in Hb, He.
  rewrite in_range_true in Hb by (change (length base_lengths) with 29%nat; lia).
  rewrite in_range_true in He by (change (length extra_len_bits) with 29%nat; lia).
  injection Hb as <-. injection He as <-.
  assert (Hn : (Z.to_nat code < 29)%nat) by lia.
  revert Hg. generalize (Z.to_nat code) Hn. clear. intros n Hn Hg.
  do 29 (destruct n as [|n];
         [eval_table_entries Hg; apply getbits_below in Hg; [|lia];
          match type of Hg with
          | context [2 ^ ?e] =>
              let p := eval vm_compute in (2 ^ e) in change (2 ^ e) with p in Hg
          end; lia|]).
  lia.
Qed.

Lemma match_length_range_witness :
  load base_lengths 8 = Ret 11
  /\ load extra_len_bits 8 = Ret 1
  /\ getbits bs_demo 1 = Ret (1, mkBitstream 4 0 0x018d [x8d; x01; xff; x00] 4)
  /\ 3 <= 11 + 1 <= 258.
Proof.
  assert (H1 : load base_lengths 8 = Ret 11) by reflexivity.
  assert (H2 : load extra_len_bits 8 = Ret 1) by reflexivity.
  assert (H3 : getbits bs_demo 1 = Ret (1, mkBitstream 4 0 0x018d [x8d; x01; xff; x00] 4))
    by reflexivity.
  split; [exact H1|]. split; [exact H2|]. split; [exact H3|].
  exact (match_length_range 8 11 1 1 bs_demo _ H1 H2 H3).
Defined.

(** X24: every match distance the symbol loop computes lies in 1..32768:
    for each index [dist] inside the tables, the base distance plus
    whatever [getbits] returns for the extra-bit count of that index. *)
Theorem match_distance_range (dist base extra y : Z) (bs bs' : Bitstream) :
  load base_dists dist = Ret base ->
  load extra_dist_bits dist = Ret extra ->
  getbits bs extra = Ret (y, bs') ->
  1 <= base + y <= 32768.
Proof.
  intros Hb He Hg.
  pose proof (load_in_range _ _ _ Hb) as Hr.
  change (length base_dists) with 30%nat in Hr.
  unfold load in Hb, He.
  rewrite in_range_true in Hb by (change (length base_dists) with 30%nat; lia).
  rewrite in_range_true in He by (change (length extra_dist_bits) with 30%nat; lia).
  injection Hb as <-. injection He as <-.
  assert (Hn : (Z.to_nat dist < 30)%nat) by lia.
  revert Hg. generalize (Z.to_nat dist) Hn. clear. intros n Hn Hg.
  do 30 (destruct n as [|n];
         [eval_table_entries Hg; apply getbits_below in Hg; [|lia];
          match type of Hg with
          | context [2 ^ ?e] =>
              let p := eval vm_compute in (2 ^ e) in change (2 ^ e) with p in Hg
          end; lia|]).
  lia.
Qed.

Lemma match_distance_range_witness :
  load base_dists 4 = Ret 5
  /\ load extra_dist_bits 4 = Ret 1
  /\ getbits bs_demo 1 = Ret (1, mkBitstream 4 0 0x018d [x8d; x01; xff; x00] 4)
  /\ 1 <= 5 + 1 <= 32768.
Proof.
  assert (H1 : load base_dists 4 = Ret 5) by reflexivity.
  assert (H2 : load extra_dist_bits 4 = Ret 1) by reflexivity.
  assert (H3 : getbits bs_demo 1 = Ret (1, mkBitstream 4 0 0x018d [x8d; x01; xff; x00] 4))
    by reflexivity.
  split; [exact H1|]. split; [exact H2|]. split; [exact H3|].
  exact (match_distance_range 4 5 1 1 bs_demo _ H1 H2 H3).
Defined.

(** ** The fixed code lengths *)

(** X25: the five loops of the fixed branch overwrite every one of the
    288 + 30 entries, so the lengths of a fixed block do not depend on
    what the array held before: 8 for 0..143, 9 for 144..255, 7 for
    256..279, 8 for 280..287, and 5 for the 30 distance codes. *)
Theorem fixed_lengths_overwrite_all (a : list Z) :
  length a = 318%nat ->
  fixed_lengths a = Ret (fixed_literal_lengths ++ fixed_distance_lengths, 288, 30).
Proof.
  intros Ha. unfold fixed_lengths.
  destruct (fill_val_run 144 0 8 a) as (l1 & H1 & L1 & N1); [lia | lia |].
  rewrite H1. cbn [bind].
  destruct (fill_val_run (256 - 144) 144 9 l1) as (l2 & H2 & L2 & N2); [lia | lia |].
  rewrite H2. cbn [bind].
  destruct (fill_val_run (280 - 256) 256 7 l2) as (l3 & H3 & L3 & N3); [lia | lia |].
  rewrite H3. cbn [bind].
  destruct (fill_val_run (288 - 280) 280 8 l3) as (l4 & H4 & L4 & N4); [lia | lia |].
  rewrite H4. cbn [bind].
  destruct (fill_val_run 30 288 5 l4) as (l5 & H5 & L5 & N5); [lia | lia |].
  rewrite H5. cbn [bind].
  f_equal. f_equal. f_equal.
  apply (nth_ext _ _ 0 0).
  - rewrite L5, L4, L3, L2, L1, Ha. reflexivity.
  - intros n Hn. rewrite L5, L4, L3, L2, L1, Ha in Hn.
    rewrite N5, N4, N3, N2, N1. clear - Hn.
    do 318 (destruct n as [|n]; [reflexivity|]). lia.
Qed.

Lemma fixed_lengths_overwrite_all_witness :
  length (repeat 99 318) = 318%nat
  /\ fixed_lengths (repeat 99 318)
     = Ret (fixed_literal_lengths ++ fixed_distance_lengths, 288, 30).
Proof.
  assert (H : length (repeat 99 318) = 318%nat) by reflexivity.
  split; [exact H|].
  exact (fixed_lengths_overwrite_all (repeat 99 318) H).
Defined.

(** ** What a run of the program comes to *)

(** X26: in the program as it is, a run that gets through the header and
    sets up the trees of its first block never ends: [readsym] returns
    the literal 0 for ever, so the symbol loop of that block is never
    left, whatever the loop bound. *)
Theorem main_stays_in_first_block (gz : list byte) (off : Z) (bs : Bitstream)
        (r : Z * HuffTree * HuffTree * Bitstream) :
  parse_header gz = Ret off ->
  bitstream_init (skipn (Z.to_nat off) gz)
                 (size_t (Z.of_nat (length gz) - off - 8)) = Ret bs ->
  block_trees HuffTree init_hufftree readsym bs = Ret r ->
  forall fuel, main fuel gz = OutOfFuel.
Proof.
  intros Hp Hi Hb fuel. unfold main.
  rewrite (main_with_from _ _ _ fuel gz off bs Hp Hi).
  destruct fuel as [|fuel]; [reflexivity|].
  cbn [blocks_loop]. rewrite (block_readsym fuel bs r Hb). reflexivity.
Qed.

Lemma main_stays_in_first_block_witness :
  parse_header (gz_empty [x00; x00; x00; x00]) = Ret 10
  /\ bitstream_init (skipn (Z.to_nat 10) (gz_empty [x00; x00; x00; x00]))
       (size_t (Z.of_nat (length (gz_empty [x00; x00; x00; x00])) - 10 - 8))
     = Ret bs_empty
  /\ block_trees HuffTree init_hufftree readsym bs_empty
     = Ret (1, mkHuffTree, mkHuffTree,
            mkBitstream 3 0 0x0003 [x03; x00; x00; x00; x00; x00; x00; x00; x00; x00] 2)
  /\ forall fuel, main fuel (gz_empty [x00; x00; x00; x00]) = OutOfFuel.
Proof.
  assert (H1 : parse_header (gz_empty [x00; x00; x00; x00]) = Ret 10) by reflexivity.
  assert (H2 : bitstream_init (skipn (Z.to_nat 10) (gz_empty [x00; x00; x00; x00]))
                 (size_t (Z.of_nat (length (gz_empty [x00; x00; x00; x00])) - 10 - 8))
               = Ret bs_empty) by reflexivity.
  assert (H3 : block_trees HuffTree init_hufftree readsym bs_empty
               = Ret (1, mkHuffTree, mkHuffTree,
                      mkBitstream 3 0 0x0003
                        [x03; x00; x00; x00; x00; x00; x00; x00; x00; x00] 2))
    by (vm_compute; reflexivity).
  split; [exact H1|]. split; [exact H2|]. split; [exact H3|].
  exact (main_stays_in_first_block (gz_empty [x00; x00; x00; x00]) 10 bs_empty _ H1 H2 H3).
Defined.
